(** * Existence-filter mismatch capture (Firestore integration-test helper)

    A shallow embedding of [captureExistenceFilterMismatches] and
    [createExistenceFilterMismatchInfoFrom], together with the testing-hook
    registry they talk to, and the properties of the capture that the
    specification states. *)

From Stdlib Require Import ZArith.
From stdpp Require Import gmap strings list.

Set Warnings "-register-all,-clear-no-such-hyp".

(** ** JavaScript results

    A call either completes normally with a value or abruptly with a thrown
    value; a promise settles the same way (fulfilled or rejected). *)

Inductive Completion (E A : Type) : Type :=
| Normal (v : A)
| Abrupt (e : E).
Arguments Normal {E A} v.
Arguments Abrupt {E A} e.

(** [f?.(x)]: when [f] is missing the call is skipped, the argument is not
    looked at and the value is [undefined] (here [None]). *)
Definition optional_call {E A B : Type}
    (f : option (A → Completion E B)) (x : A) : Completion E (option B) :=
  match f with
  | Some g =>
      match g x with
      | Normal v => Normal (Some v)
      | Abrupt e => Abrupt e
      end
  | None => Normal None
  end.

(** [c ?? d]: replaces [undefined] by [d]; a throw in [c] propagates. *)
Definition nullish_coalesce {E B : Type}
    (c : Completion E (option B)) (d : B) : Completion E B :=
  match c with
  | Normal (Some v) => Normal v
  | Normal None => Normal d
  | Abrupt e => Abrupt e
  end.

(** The part of a [DocumentReference] the helper reads. *)
Record DocumentReference : Type := { path : string }.

Section Translation.

Context {Error : Type}.

(** ** Data model *)

(** The [bloomFilter] member of [ExistenceFilterMismatchInfoInternal]. *)
Record BloomFilterInternal : Type := {
  applied : bool;
  hashCount : Z;
  bitmapLength : Z;
  padding : Z;
  mightContain : option (string → Completion Error bool)
}.

Record ExistenceFilterMismatchInfoInternal : Type := {
  localCacheCount : Z;
  existenceFilterCount : Z;
  projectId : string;
  databaseId : string;
  bloomFilter : option BloomFilterInternal
}.

(** The objects that [createExistenceFilterMismatchInfoFrom] builds: an
    object is the finite map of its own properties. *)
Inductive Value : Type :=
| VNumber (n : Z)
| VBoolean (b : bool)
| VFunction (f : DocumentReference → Completion Error bool)
| VObject (o : gmap string Value).

(** [ExistenceFilterMismatchInfo], as an object. *)
Abbreviation Obj := (gmap string Value).

(** ** createExistenceFilterMismatchInfoFrom *)

(** The string handed to the internal predicate, in the order the three
    template literals are added. *)
Definition documentKey (internalInfo : ExistenceFilterMismatchInfoInternal)
    (documentRef : DocumentReference) : string :=
  (("projects/" +:+ projectId internalInfo)
     +:+ ("/databases/" +:+ databaseId internalInfo))
    +:+ ("/documents/" +:+ path documentRef).

Definition createExistenceFilterMismatchInfoFrom
    (internalInfo : ExistenceFilterMismatchInfoInternal) : Obj :=
  let info : Obj :=
    <["existenceFilterCount" := VNumber (existenceFilterCount internalInfo)]>
      (<["localCacheCount" := VNumber (localCacheCount internalInfo)]> ∅) in
  match bloomFilter internalInfo with
  | Some internalBloomFilter =>
      <["bloomFilter" := VObject (
          <["mightContain" := VFunction (λ documentRef,
              nullish_coalesce
                (optional_call (mightContain internalBloomFilter)
                   (documentKey internalInfo documentRef))
                false)]>
          (<["padding" := VNumber (padding internalBloomFilter)]>
          (<["bitmapLength" := VNumber (bitmapLength internalBloomFilter)]>
          (<["hashCount" := VNumber (hashCount internalBloomFilter)]>
          (<["applied" := VBoolean (applied internalBloomFilter)]> ∅)))))]>
        info
  | None => info
  end.

(** ** Reading the public record *)

(** [info.bloomFilter], when it is an object. *)
Definition get_bloomFilter (info : Obj) : option Obj :=
  match info !! "bloomFilter" with
  | Some (VObject bf) => Some bf
  | _ => None
  end.

(** [info.bloomFilter.mightContain(documentRef)]; [None] when there is
    nothing to call. *)
Definition call_mightContain (info : Obj) (documentRef : DocumentReference)
    : option (Completion Error bool) :=
  match get_bloomFilter info with
  | Some bf =>
      match bf !! "mightContain" with
      | Some (VFunction f) => Some (f documentRef)
      | _ => None
      end
  | None => None
  end.

End Translation.

Arguments BloomFilterInternal : clear implicits.
Arguments ExistenceFilterMismatchInfoInternal : clear implicits.
Arguments Value : clear implicits.

(** [ExistenceFilterMismatchInfo]: the public record, as an object. *)
Abbreviation ExistenceFilterMismatchInfo Error := (gmap string (Value Error)).

(** ** The testing-hook registry *)

(** Modelled from the spec: the [TestingHooks] singleton that
    [captureExistenceFilterMismatches] imports from [./firebase_export] is
    not part of the sources at hand.  Following the specification's
    contract of the hook registry: [onExistenceFilterMismatch] appends the
    callback to the ordered subscriber list and returns a handle that removes
    that very entry (a second registration of the same callback is a second
    entry with a handle of its own, so entries carry an identity);
    [notifyOnExistenceFilterMismatch] calls every registered callback in
    registration order; invoking a handle removes the entry if it is still
    there.  A callback acts on the store of the objects it closes over. *)
Module TestingHooks.
Section Registry.

Context {Info Store : Type}.

Definition Handle : Type := nat.
Definition Callback : Type := Info → Store → Store.

Record t : Type := {
  callbacks : list (Handle * Callback);
  nextId : Handle
}.

Definition create : t := {| callbacks := []; nextId := 0 |}.

Definition onExistenceFilterMismatch (callback : Callback) (hooks : t)
    : Handle * t :=
  (nextId hooks,
   {| callbacks := callbacks hooks ++ [(nextId hooks, callback)];
      nextId := S (nextId hooks) |}).

(** Invoking the handle returned by [onExistenceFilterMismatch]. *)
Definition unregister (h : Handle) (hooks : t) : t :=
  {| callbacks := filter (λ entry, entry.1 ≠ h) (callbacks hooks);
     nextId := nextId hooks |}.

Definition notifyOnExistenceFilterMismatch (info : Info) (hooks : t)
    (store : Store) : Store :=
  foldl (λ s entry, entry.2 info s) store (callbacks hooks).

(** What a client may do to the registry. *)
Inductive Op : Type :=
| OpRegister (callback : Callback)
| OpUnregister (h : Handle).

Definition apply_op (hooks : t) (op : Op) : t :=
  match op with
  | OpRegister callback => (onExistenceFilterMismatch callback hooks).2
  | OpUnregister h => unregister h hooks
  end.

Definition apply_ops (ops : list Op) (hooks : t) : t :=
  foldl apply_op hooks ops.

(** The handle [h] has been handed out and its entry is gone. *)
Definition released (h : Handle) (hooks : t) : Prop :=
  h < nextId hooks ∧ ∀ entry, entry ∈ callbacks hooks → entry.1 ≠ h.

End Registry.
Arguments t : clear implicits.
Arguments Callback : clear implicits.
Arguments Op : clear implicits.
End TestingHooks.

(** ** Asynchronous work and the capture *)

Section Capture.

Context {Error T : Type}.

Abbreviation InfoInternal := (ExistenceFilterMismatchInfoInternal Error).
Abbreviation Info := (ExistenceFilterMismatchInfo Error).

(** The arrays the capture callbacks push to, by location. *)
Definition Loc : Type := nat.
Abbreviation Heap := (list (list Info)).

(** [const results = []] *)
Definition alloc (heap : Heap) : Loc * Heap := (length heap, heap ++ [[]]).

(** [results.push(x)] *)
Definition push (results : Loc) (x : Info) (heap : Heap) : Heap :=
  alter (λ a, a ++ [x]) results heap.

(** [onExistenceFilterMismatchCallback], closed over [results]. *)
Definition onExistenceFilterMismatchCallback (results : Loc)
    : TestingHooks.Callback InfoInternal Heap :=
  λ info heap, push results (createExistenceFilterMismatchInfoFrom info) heap.

(** A detached background action: what it does on the JavaScript thread,
    one turn of the event loop after the other. *)
Inductive Job : Type :=
| JDone
| JNotify (info : InfoInternal) (k : Job)
| JAwait (k : Job).

(** The [callback] given to the capture, an asynchronous unit of work: it
    resolves or rejects, makes the synchronization engine report a mismatch,
    suspends at an [await], or starts a detached action that it does not
    wait for. *)
Inductive Async : Type :=
| Return (r : T)
| Throw (e : Error)
| Notify (info : InfoInternal) (k : Async)
| Await (k : Async)
| Detach (bg : Job) (k : Async).

(** How the work settles. *)
Fixpoint outcome (c : Async) : Completion Error T :=
  match c with
  | Return r => Normal r
  | Throw e => Abrupt e
  | Notify _ k | Await k | Detach _ k => outcome k
  end.

(** The number of suspension points of the work. *)
Fixpoint awaits (c : Async) : nat :=
  match c with
  | Return _ | Throw _ => 0
  | Notify _ k | Detach _ k => awaits k
  | Await k => S (awaits k)
  end.

(** The program points of [captureExistenceFilterMismatches]. *)
Inductive CaptureState : Type :=
| Called (callback : Async)
    (* the function has been called and has not run yet *)
| Awaiting (results : Loc) (unregister : TestingHooks.Handle) (pending : Async)
    (* suspended in [await callback()], the callback not yet settled *)
| Resuming (results : Loc) (unregister : TestingHooks.Handle)
    (settled : Completion Error T)
    (* the callback's promise has settled, the continuation of the
       [await] is queued and has not run yet *)
| Finished (unregister : TestingHooks.Handle)
    (result : Completion Error (Loc * T)).
    (* returned [[results, callbackResult]], or rethrew *)

Inductive Task : Type :=
| Capture (st : CaptureState)
| Background (j : Job).

(** What happened at the registry, most recent event first. *)
Inductive Event : Type :=
| EvRegister (h : TestingHooks.Handle)
| EvUnregister (h : TestingHooks.Handle)
| EvNotify (info : InfoInternal).

Record World : Type := {
  hooks : TestingHooks.t InfoInternal Heap;
  heap : Heap;
  tasks : list Task;
  log : list Event
}.

(** [TestingHooks.getOrCreateInstance()]: the one registry of the process,
    empty until its first use. *)
Definition getOrCreateInstance (w : World) : TestingHooks.t InfoInternal Heap :=
  hooks w.

Definition set_task (i : nat) (t : Task) (w : World) : World :=
  {| hooks := hooks w; heap := heap w;
     tasks := <[i := t]> (tasks w); log := log w |}.

(** The synchronization engine reports a mismatch. *)
Definition notify (info : InfoInternal) (w : World) : World :=
  {| hooks := hooks w;
     heap := TestingHooks.notifyOnExistenceFilterMismatch info
               (getOrCreateInstance w) (heap w);
     tasks := tasks w;
     log := EvNotify info :: log w |}.

Definition spawn (bg : Job) (w : World) : World :=
  {| hooks := hooks w; heap := heap w;
     tasks := tasks w ++ [Background bg]; log := log w |}.

(** Runs the callback up to its next suspension point or to its end. *)
Fixpoint run_callback (c : Async) (w : World)
    : World * (Async + Completion Error T) :=
  match c with
  | Return r => (w, inr (Normal r))
  | Throw e => (w, inr (Abrupt e))
  | Notify info k => run_callback k (notify info w)
  | Await k => (w, inl k)
  | Detach bg k => run_callback k (spawn bg w)
  end.

Fixpoint run_job (j : Job) (w : World) : World * Job :=
  match j with
  | JDone => (w, JDone)
  | JNotify info k => run_job k (notify info w)
  | JAwait k => (w, k)
  end.

(** The capture is suspended in [await callback()] and the callback runs
    its next stretch. *)
Definition advance (i : nat) (results : Loc) (unregister : TestingHooks.Handle)
    (pending : Async) (w : World) : World :=
  let '(w', r) := run_callback pending w in
  set_task i
    (Capture match r with
             | inl k => Awaiting results unregister k
             | inr settled => Resuming results unregister settled
             end) w'.

(** One turn of the capture at task slot [i]. *)
Definition captureExistenceFilterMismatches (i : nat) (st : CaptureState)
    (w : World) : World :=
  match st with
  | Called callback =>
      let '(results, heap') := alloc (heap w) in
      let '(unregister, hooks') :=
        TestingHooks.onExistenceFilterMismatch
          (onExistenceFilterMismatchCallback results) (getOrCreateInstance w) in
      advance i results unregister callback
        {| hooks := hooks'; heap := heap';
           tasks := <[i := Capture (Awaiting results unregister callback)]> (tasks w);
           log := EvRegister unregister :: log w |}
  | Awaiting results unregister pending =>
      advance i results unregister pending w
  | Resuming results unregister settled =>
      (* finally { unregister(); } and then the return, or the rethrow *)
      set_task i
        (Capture (Finished unregister
           match settled with
           | Normal callbackResult => Normal (results, callbackResult)
           | Abrupt e => Abrupt e
           end))
        {| hooks := TestingHooks.unregister unregister (hooks w);
           heap := heap w; tasks := tasks w;
           log := EvUnregister unregister :: log w |}
  | Finished _ _ => w
  end.

(** One turn of the event loop: the task at slot [i] runs. *)
Definition step (i : nat) (w : World) : World :=
  match tasks w !! i with
  | Some (Capture st) => captureExistenceFilterMismatches i st w
  | Some (Background j) =>
      let '(w', j') := run_job j w in set_task i (Background j') w'
  | None => w
  end.

Definition run (sched : list nat) (w : World) : World :=
  foldl (λ w i, step i w) w sched.

(** The program starts with the given captures called and the given
    background actions queued, and an empty registry. *)
Definition boot (callbacks : list Async) (jobs : list Job) : World :=
  {| hooks := TestingHooks.create; heap := [];
     tasks := (Capture ∘ Called <$> callbacks) ++ (Background <$> jobs);
     log := [] |}.

(** ** Observations *)

(** What the subscription [h] has seen of a log: whether it is registered at
    the end of the log, and the mismatches notified while it was. *)
Fixpoint observe (h : TestingHooks.Handle) (events : list Event)
    : bool * list InfoInternal :=
  match events with
  | [] => (false, [])
  | ev :: earlier =>
      let '(on, seen) := observe h earlier in
      match ev with
      | EvRegister h' => (on || bool_decide (h' = h), seen)
      | EvUnregister h' => (on && bool_decide (h' ≠ h), seen)
      | EvNotify info => (on, if on then seen ++ [info] else seen)
      end
  end.

Definition subscribed (h : TestingHooks.Handle) (events : list Event) : bool :=
  (observe h events).1.

(** The mismatches notified between the registration of [h] and its
    release. *)
Definition window (h : TestingHooks.Handle) (events : list Event)
    : list InfoInternal :=
  (observe h events).2.

(** The array a finished capture returned, as it is in the heap. *)
Definition returned_records (w : World) (i : nat) : option (list Info) :=
  match tasks w !! i with
  | Some (Capture (Finished _ (Normal (results, _)))) => heap w !! results
  | _ => None
  end.

(** The mismatches the work itself reports, those of the actions it
    detaches included. *)
Fixpoint job_notifications (j : Job) : list InfoInternal :=
  match j with
  | JDone => []
  | JNotify info k => info :: job_notifications k
  | JAwait k => job_notifications k
  end.

Fixpoint notifications (c : Async) : list InfoInternal :=
  match c with
  | Return _ | Throw _ => []
  | Notify info k => info :: notifications k
  | Await k => notifications k
  | Detach bg k => job_notifications bg ++ notifications k
  end.



(** The number of turns a scheduler gives to slot [i]. *)
Definition turns (i : nat) (sched : list nat) : nat :=
  length (filter (λ j, j = i) sched).

(** The number of turns a capture still needs to finish. *)
Definition remaining (st : CaptureState) : nat :=
  match st with
  | Called callback => awaits callback + 2
  | Awaiting _ _ pending => awaits pending + 2
  | Resuming _ _ _ => 1
  | Finished _ _ => 0
  end.

(** ** Invariant of the running program *)

(** The subscription and the array of a capture that is suspended. *)
Definition subscription (st : CaptureState)
    : option (TestingHooks.Handle * Loc) :=
  match st with
  | Awaiting results unregister _ | Resuming results unregister _ =>
      Some (unregister, results)
  | Called _ | Finished _ _ => None
  end.

(** The registry entry of the subscription [s]. *)
Definition entry (s : TestingHooks.Handle * Loc)
    : TestingHooks.Handle * TestingHooks.Callback InfoInternal Heap :=
  (s.1, onExistenceFilterMismatchCallback s.2).

(** The array at [results] holds the translations of what the subscription
    [h] has seen. *)
Definition captured (w : World) (h : TestingHooks.Handle) (results : Loc)
    : Prop :=
  heap w !! results
  = Some (createExistenceFilterMismatchInfoFrom <$> window h (log w)).

Definition task_inv (callbacks : list Async)
    (subs : list (TestingHooks.Handle * Loc)) (w : World) (i : nat)
    (st : CaptureState) : Prop :=
  ∃ callback, callbacks !! i = Some callback ∧
  match st with
  | Called c => c = callback
  | Awaiting results h pending =>
      outcome pending = outcome callback ∧ (h, results) ∈ subs
      ∧ subscribed h (log w) = true ∧ captured w h results
  | Resuming results h settled =>
      settled = outcome callback ∧ (h, results) ∈ subs
      ∧ subscribed h (log w) = true ∧ captured w h results
  | Finished h result =>
      h < TestingHooks.nextId (hooks w) ∧ (h ∉ subs.*1)
      ∧ subscribed h (log w) = false ∧ EvUnregister h ∈ log w
      ∧ match result with
        | Normal (results, r) =>
            outcome callback = Normal r ∧ (results ∉ subs.*2)
            ∧ captured w h results
        | Abrupt e => outcome callback = Abrupt e
        end
  end.

(** [subs] lists the subscriptions in the registry, in registration order. *)
Record Inv (callbacks : list Async)
    (subs : list (TestingHooks.Handle * Loc)) (w : World) : Prop := {
  inv_hooks : TestingHooks.callbacks (hooks w) = entry <$> subs;
  inv_handles : NoDup subs.*1;
  inv_locs : NoDup subs.*2;
  inv_bounds : ∀ h l, (h, l) ∈ subs →
    h < TestingHooks.nextId (hooks w) ∧ l < length (heap w);
  inv_log : ∀ h, EvRegister h ∈ log w → h < TestingHooks.nextId (hooks w);
  inv_tasks : ∀ i st, tasks w !! i = Some (Capture st) →
    task_inv callbacks subs w i st;
  inv_owner : ∀ i j sti stj h li lj,
    tasks w !! i = Some (Capture sti) → tasks w !! j = Some (Capture stj) →
    subscription sti = Some (h, li) → subscription stj = Some (h, lj) →
    i = j
}.

(** The actions the work detaches. *)
Fixpoint detached (c : Async) : list Job :=
  match c with
  | Return _ | Throw _ => []
  | Notify _ k | Await k => detached k
  | Detach bg k => bg :: detached k
  end.

(** The state of a program that consists of one capture, whose work is
    [callback]: what the subscription has seen so far and what the work has
    still to report make up what the work reports. *)
Definition lone_inv (callback : Async) (w : World) : Prop :=
  ∃ st, tasks w = [Capture st] ∧
  match st with
  | Called c => c = callback ∧ log w = []
  | Awaiting _ h pending =>
      detached pending = [] ∧ subscribed h (log w) = true
      ∧ window h (log w) ++ notifications pending = notifications callback
  | Resuming _ h _ =>
      subscribed h (log w) = true ∧ window h (log w) = notifications callback
  | Finished h _ => window h (log w) = notifications callback
  end.


(** The mismatches published according to a log, oldest first. *)
Fixpoint published (events : list Event) : list InfoInternal :=
  match events with
  | [] => []
  | EvNotify info :: earlier => published earlier ++ [info]
  | EvRegister _ :: earlier | EvUnregister _ :: earlier => published earlier
  end.


(** The capture at slot [i] has been called since the log was [log0], and
    while it is suspended its subscription has seen all that was published
    since. *)
Definition since (log0 : list Event) (i : nat) (w : World) : Prop :=
  ∃ st new, tasks w !! i = Some (Capture st) ∧ log w = new ++ log0 ∧
  match st with
  | Called _ => False
  | Awaiting _ h _ | Resuming _ h _ => window h (log w) = published new
  | Finished _ _ => True
  end.

(** Every registry entry belongs to a capture that is suspended. *)
Definition owned (w : World) : Prop :=
  ∀ e, e ∈ TestingHooks.callbacks (hooks w) →
    ∃ i st l, tasks w !! i = Some (Capture st)
              ∧ subscription st = Some (e.1, l).

(** The handle a capture holds, once it has registered. *)
Definition handle_of (st : CaptureState) : option TestingHooks.Handle :=
  match st with
  | Called _ => None
  | Awaiting _ unregister _ | Resuming _ unregister _ | Finished unregister _ =>
      Some unregister
  end.

(** The array a capture has created and still holds or has returned. *)
Definition array_of (st : CaptureState) : option Loc :=
  match st with
  | Awaiting results _ _ | Resuming results _ _
  | Finished _ (Normal (results, _)) => Some results
  | Called _ | Finished _ (Abrupt _) => None
  end.

(** The arrays of the captures are allocated and no two captures have the
    same one. *)
Definition own_arrays (w : World) : Prop :=
  (∀ i st l, tasks w !! i = Some (Capture st) → array_of st = Some l →
             l < length (heap w))
  ∧ ∀ i j sti stj l,
      tasks w !! i = Some (Capture sti) → tasks w !! j = Some (Capture stj) →
      array_of sti = Some l → array_of stj = Some l → i = j.

End Capture.

Arguments Job : clear implicits.
Arguments Async : clear implicits.
Arguments CaptureState : clear implicits.
Arguments Task : clear implicits.
Arguments Event : clear implicits.
Arguments World : clear implicits.

(** ** Sample data *)

Module Sample.

(** The internal predicate recognises one document key only. *)
Definition only_doc1 (key : string) : Completion string bool :=
  Normal (String.eqb key "projects/proj1/databases/(default)/documents/col/doc1").

Definition filter_with_predicate : BloomFilterInternal string :=
  {| applied := true; hashCount := 3; bitmapLength := 64; padding := 2;
     mightContain := Some only_doc1 |}.

Definition filter_without_predicate : BloomFilterInternal string :=
  {| applied := true; hashCount := 3; bitmapLength := 64; padding := 2;
     mightContain := None |}.

Definition mismatch : ExistenceFilterMismatchInfoInternal string :=
  {| localCacheCount := 5; existenceFilterCount := 6;
     projectId := "proj1"; databaseId := "(default)";
     bloomFilter := Some filter_with_predicate |}.

Definition mismatch_without_predicate : ExistenceFilterMismatchInfoInternal string :=
  {| localCacheCount := 5; existenceFilterCount := 6;
     projectId := "proj1"; databaseId := "(default)";
     bloomFilter := Some filter_without_predicate |}.

Definition doc1 : DocumentReference := {| path := "col/doc1" |}.
Definition doc2 : DocumentReference := {| path := "col/doc2" |}.

(** Work that reports one mismatch after a suspension and resolves. *)
Definition reporting : Async string Z := Await (Notify mismatch (Return 1%Z)).

(** Work that reports nothing: it suspends once and resolves. *)
Definition silent : Async string Z := Await (Return 2%Z).

(** Work that reports a mismatch and then rejects. *)
Definition failing : Async string Z := Notify mismatch (Await (Throw "boom")).

(** Work that resolves at once and leaves a detached action behind, which
    reports a mismatch when its turn comes. *)
Definition detaching : Async string Z :=
  Detach (JNotify mismatch JDone) (Return 42%Z).

(** The same mismatch, reported for another database. *)
Definition mismatch_elsewhere : ExistenceFilterMismatchInfoInternal string :=
  {| localCacheCount := 5; existenceFilterCount := 6;
     projectId := "proj2"; databaseId := "other";
     bloomFilter := Some filter_with_predicate |}.

(** Work that reports a mismatch in its first stretch and resolves. *)
Definition reporting_at_once : Async string Z := Notify mismatch (Return 3%Z).

End Sample.

(** * Properties *)

(** ** The translation of a mismatch record *)

Section TranslationFacts.

Context {Error : Type}.
Implicit Types (internalInfo : ExistenceFilterMismatchInfoInternal Error)
  (bf : BloomFilterInternal Error) (documentRef : DocumentReference).

Lemma append_assoc (a b c : string) : (a +:+ b) +:+ c = a +:+ (b +:+ c).
Proof.
  induction a as [|ch a IH]; [reflexivity |].
  change (String ch ((a +:+ b) +:+ c) = String ch (a +:+ (b +:+ c))).
  by f_equal.
Qed.

Lemma documentKey_spelled internalInfo documentRef :
  documentKey internalInfo documentRef =
  "projects/" +:+ projectId internalInfo +:+ "/databases/"
    +:+ databaseId internalInfo +:+ "/documents/" +:+ path documentRef.
Proof. unfold documentKey. by rewrite !append_assoc. Qed.

Lemma nullish_optional_call_present {A : Type}
    (g : A → Completion Error bool) (x : A) :
  nullish_coalesce (optional_call (Some g) x) false = g x.
Proof. unfold optional_call. by destruct (g x). Qed.

Lemma get_bloomFilter_present internalInfo bf :
  bloomFilter internalInfo = Some bf →
  ∃ o, get_bloomFilter (createExistenceFilterMismatchInfoFrom internalInfo) = Some o
       ∧ dom o = {["applied"; "hashCount"; "bitmapLength"; "padding"; "mightContain"]}.
Proof.
  intros Hbf. unfold get_bloomFilter, createExistenceFilterMismatchInfoFrom.
  rewrite Hbf, lookup_insert_eq. eexists; split; [done |].
  rewrite !dom_insert_L, dom_empty_L. set_solver.
Qed.

(** C3: with a bloom filter and an internal predicate [m] present,
    [mightContain(ref)] of the translated record is [m] applied to
    ["projects/" + projectId + "/databases/" + databaseId + "/documents/" +
    ref.path]. *)
Theorem mightContain_delegates internalInfo bf m documentRef :
  bloomFilter internalInfo = Some bf →
  mightContain bf = Some m →
  call_mightContain (createExistenceFilterMismatchInfoFrom internalInfo) documentRef
  = Some (m ("projects/" +:+ projectId internalInfo +:+ "/databases/"
               +:+ databaseId internalInfo +:+ "/documents/"
               +:+ path documentRef)).
Proof.
  intros Hbf Hm.
  unfold call_mightContain, get_bloomFilter, createExistenceFilterMismatchInfoFrom.
  rewrite Hbf, !lookup_insert_eq, Hm, nullish_optional_call_present.
  by rewrite documentKey_spelled.
Qed.

(** C4: with a bloom filter present and no internal predicate,
    [mightContain] of the translated record completes normally with [false]
    for every document reference. *)
Theorem mightContain_absent_is_false internalInfo bf documentRef :
  bloomFilter internalInfo = Some bf →
  mightContain bf = None →
  call_mightContain (createExistenceFilterMismatchInfoFrom internalInfo) documentRef
  = Some (Normal false).
Proof.
  intros Hbf Hm.
  unfold call_mightContain, get_bloomFilter, createExistenceFilterMismatchInfoFrom.
  by rewrite Hbf, !lookup_insert_eq, Hm.
Qed.

Lemma translated_dom internalInfo :
  dom (createExistenceFilterMismatchInfoFrom internalInfo) =
  {["localCacheCount"; "existenceFilterCount"]}
    ∪ (if bloomFilter internalInfo is Some _ then {["bloomFilter"]} else ∅).
Proof.
  unfold createExistenceFilterMismatchInfoFrom.
  destruct (bloomFilter internalInfo);
    rewrite !dom_insert_L, dom_empty_L; set_solver.
Qed.

(** C6: the translated record has no [projectId] and no [databaseId]
    property, neither at the top nor inside [bloomFilter]: its properties
    are among [localCacheCount], [existenceFilterCount] and [bloomFilter]. *)
Theorem translated_drops_routing_fields internalInfo :
  let info := createExistenceFilterMismatchInfoFrom internalInfo in
  info !! "projectId" = None ∧ info !! "databaseId" = None
  ∧ dom info ⊆ {["localCacheCount"; "existenceFilterCount"; "bloomFilter"]}
  ∧ ∀ o, get_bloomFilter info = Some o →
         o !! "projectId" = None ∧ o !! "databaseId" = None.
Proof.
  intros info. subst info.
  split_and!.
  - apply not_elem_of_dom. rewrite translated_dom.
    destruct (bloomFilter internalInfo); set_solver.
  - apply not_elem_of_dom. rewrite translated_dom.
    destruct (bloomFilter internalInfo); set_solver.
  - rewrite translated_dom. destruct (bloomFilter internalInfo); set_solver.
  - intros o Ho.
    destruct (bloomFilter internalInfo) as [bf|] eqn:Hbf.
    + destruct (get_bloomFilter_present _ _ Hbf) as (o' & Ho' & Hdom).
      rewrite Ho in Ho'. injection Ho' as <-.
      split; apply not_elem_of_dom; rewrite Hdom; set_solver.
    + unfold get_bloomFilter, createExistenceFilterMismatchInfoFrom in Ho.
      rewrite Hbf in Ho. by rewrite lookup_insert_ne, lookup_insert_ne in Ho.
Qed.

(** C7: with a bloom filter present, [applied], [hashCount],
    [bitmapLength] and [padding] of the translated record are those of the
    internal descriptor, and [localCacheCount] and [existenceFilterCount]
    those of the internal record. *)
Theorem translated_copies_fields internalInfo bf :
  bloomFilter internalInfo = Some bf →
  let info := createExistenceFilterMismatchInfoFrom internalInfo in
  info !! "localCacheCount" = Some (VNumber (localCacheCount internalInfo))
  ∧ info !! "existenceFilterCount"
      = Some (VNumber (existenceFilterCount internalInfo))
  ∧ ∃ o, get_bloomFilter info = Some o
      ∧ o !! "applied" = Some (VBoolean (applied bf))
      ∧ o !! "hashCount" = Some (VNumber (hashCount bf))
      ∧ o !! "bitmapLength" = Some (VNumber (bitmapLength bf))
      ∧ o !! "padding" = Some (VNumber (padding bf)).
Proof.
  intros Hbf info. subst info.
  unfold get_bloomFilter, createExistenceFilterMismatchInfoFrom. rewrite Hbf.
  split_and!.
  - by rewrite !lookup_insert_ne, lookup_insert_eq by done.
  - by rewrite !lookup_insert_ne, lookup_insert_eq by done.
  - rewrite lookup_insert_eq. eexists; split_and!; [done | | | |].
    + by rewrite !lookup_insert_ne, lookup_insert_eq by done.
    + by rewrite !lookup_insert_ne, lookup_insert_eq by done.
    + by rewrite !lookup_insert_ne, lookup_insert_eq by done.
    + by rewrite !lookup_insert_ne, lookup_insert_eq by done.
Qed.

(** C10: the translation is a total function: for every internal record it
    yields an object, without calling the internal predicate, and the object
    has a [bloomFilter] property exactly when the internal record has one. *)
Theorem translated_bloomFilter_iff internalInfo :
  ∃ info, createExistenceFilterMismatchInfoFrom internalInfo = info
  ∧ (is_Some (info !! "bloomFilter") ↔ is_Some (bloomFilter internalInfo))
  ∧ (is_Some (get_bloomFilter info) ↔ is_Some (bloomFilter internalInfo)).
Proof.
  eexists; split; [done |].
  unfold get_bloomFilter, createExistenceFilterMismatchInfoFrom.
  destruct (bloomFilter internalInfo) as [bf|].
  - rewrite lookup_insert_eq. by split; split.
  - rewrite lookup_insert_ne, lookup_insert_ne, lookup_empty by done.
    split; split; intros [? ?]; done.
Qed.

End TranslationFacts.

(** ** The registry *)

Section RegistryFacts.

Import TestingHooks.
Context {Info Store : Type}.
Implicit Types (hooks : TestingHooks.t Info Store) (h : Handle)
  (ops : list (Op Info Store)).

Lemma unregister_released h hooks :
  released h hooks → unregister h hooks = hooks.
Proof.
  intros [_ Hgone]. destruct hooks as [cbs n]. unfold unregister. simpl in *.
  f_equal. induction cbs as [|e cbs IH]; [done |].
  rewrite filter_cons_True by (apply Hgone; left).
  f_equal. apply IH. intros e' He'. apply Hgone. by right.
Qed.

Lemma released_unregister h hooks :
  h < nextId hooks → released h (unregister h hooks).
Proof.
  intros Hlt. split; [done |]. simpl.
  intros e He. by apply list_elem_of_filter in He as [? _].
Qed.

Lemma released_apply_op h hooks (op : Op Info Store) :
  released h hooks → released h (apply_op hooks op).
Proof.
  intros [Hlt Hgone]. destruct op as [cb | h']; simpl.
  - split; [simpl; lia |]. simpl. intros e He.
    apply elem_of_app in He as [He | He]; [by apply Hgone |].
    apply list_elem_of_singleton in He as ->. simpl. lia.
  - split; [done |]. simpl. intros e He.
    apply list_elem_of_filter in He as [_ He]. by apply Hgone.
Qed.

Lemma released_apply_ops h ops hooks :
  released h hooks → released h (apply_ops ops hooks).
Proof.
  revert hooks. induction ops as [|op ops IH]; intros hooks Hrel; [done |].
  apply IH. by apply released_apply_op.
Qed.

Lemma nextId_apply_ops ops hooks : nextId hooks ≤ nextId (apply_ops ops hooks).
Proof.
  revert hooks. induction ops as [|op ops IH]; intros hooks; [done |].
  simpl. etrans; [| apply IH]. destruct op; simpl; lia.
Qed.

(** C9: once the handle returned by a registration has been invoked,
    invoking it again leaves the registry as it is, right away as well as
    after any further registrations and releases; the invocation is a total
    function of the registry, so it raises nothing. *)
Theorem unregister_idempotent ops0 ops1 ops2 (callback : Callback Info Store) :
  let registered := onExistenceFilterMismatch callback (apply_ops ops0 create) in
  let h := registered.1 in
  let once := unregister h (apply_ops ops1 registered.2) in
  unregister h once = once
  ∧ unregister h (apply_ops ops2 once) = apply_ops ops2 once
  ∧ callbacks (unregister h (apply_ops ops2 once)) = callbacks (apply_ops ops2 once).
Proof.
  intros registered h once.
  assert (released h once) as Hrel.
  { apply released_unregister.
    eapply Nat.lt_le_trans; [| apply nextId_apply_ops].
    subst h registered. simpl. lia. }
  split_and!.
  - by apply unregister_released.
  - by apply unregister_released, released_apply_ops.
  - f_equal. by apply unregister_released, released_apply_ops.
Qed.

End RegistryFacts.

(** ** The running program *)

Section CaptureFacts.

Import TestingHooks.
Context {Error T : Type}.
Implicit Types (w : World Error T) (h : Handle) (l results : Loc)
  (info : ExistenceFilterMismatchInfoInternal Error)
  (events : list (Event Error))
  (subs : list (Handle * Loc))
  (heap : list (list (ExistenceFilterMismatchInfo Error)))
  (st : CaptureState Error T) (c k callback : Async Error T)
  (cbs : list (Async Error T)) (sched : list nat).

(** *** What a subscription observes *)

Lemma subscribed_notify h info events :
  subscribed h (EvNotify info :: events) = subscribed h events.
Proof. unfold subscribed. simpl. by destruct (observe h events). Qed.

Lemma window_notify h info events :
  window h (EvNotify info :: events) =
  if subscribed h events then window h events ++ [info] else window h events.
Proof. unfold subscribed, window. simpl. by destruct (observe h events) as [[] ?]. Qed.

Lemma subscribed_register h h' events :
  subscribed h (EvRegister h' :: events)
  = subscribed h events || bool_decide (h' = h).
Proof. unfold subscribed. simpl. by destruct (observe h events). Qed.

Lemma window_register h h' events :
  window h (EvRegister h' :: events) = window h events.
Proof. unfold window. simpl. by destruct (observe h events). Qed.

Lemma subscribed_unregister h h' events :
  subscribed h (EvUnregister h' :: events)
  = subscribed h events && bool_decide (h' ≠ h).
Proof. unfold subscribed. simpl. by destruct (observe h events). Qed.

Lemma window_unregister h h' events :
  window h (EvUnregister h' :: events) = window h events.
Proof. unfold window. simpl. by destruct (observe h events). Qed.

Lemma observe_fresh h events :
  (∀ h', EvRegister h' ∈ events → h' ≠ h) → observe h events = (false, []).
Proof.
  induction events as [|ev events IH]; intros Hfresh; [done |].
  simpl. rewrite IH by (intros h' Hin; apply Hfresh; by right).
  destruct ev as [h' | h' | info]; simpl; [| done | done].
  rewrite bool_decide_eq_false_2; [done |]. apply Hfresh. by left.
Qed.

(** *** What a notification does to the arrays *)

Lemma notify_lookup info subs heap l :
  NoDup subs.*2 →
  foldl (λ s e, e.2 info s) heap (entry (Error:=Error) <$> subs) !! l =
  if decide (l ∈ subs.*2)
  then (λ a, a ++ [createExistenceFilterMismatchInfoFrom info]) <$> heap !! l
  else heap !! l.
Proof.
  revert heap. induction subs as [|[h' l'] subs IH]; intros heap Hnd.
  { by rewrite decide_False by apply not_elem_of_nil. }
  rewrite fmap_cons in Hnd. apply NoDup_cons in Hnd as [Hl' Hnd].
  simpl in Hl'. rewrite fmap_cons. cbn [foldl]. rewrite IH by done.
  unfold entry, onExistenceFilterMismatchCallback, push. simpl.
  destruct (decide (l = l')) as [-> | Hne].
  - rewrite decide_False by done. rewrite decide_True by left.
    by rewrite list_lookup_alter_eq.
  - rewrite list_lookup_alter_ne by done.
    case_decide as Hin.
    + by rewrite decide_True by (by right).
    + rewrite decide_False; [done |]. intros [? | ?]%elem_of_cons; done.
Qed.

Lemma notify_length info subs heap :
  length (foldl (λ s e, e.2 info s) heap (entry (Error:=Error) <$> subs))
  = length heap.
Proof.
  revert heap. induction subs as [|[h' l'] subs IH]; intros heap; [done |].
  rewrite fmap_cons. cbn [foldl]. rewrite IH.
  unfold entry, onExistenceFilterMismatchCallback, push. simpl.
  apply length_alter.
Qed.

(** *** The invariant is kept *)

Lemma captured_notify_subscribed cbs subs w info h l :
  Inv cbs subs w → (h, l) ∈ subs → subscribed h (log w) = true →
  captured w h l → captured (notify info w) h l.
Proof.
  intros HI Hin Hsub Hcap. unfold captured, notify in *. simpl.
  unfold notifyOnExistenceFilterMismatch, getOrCreateInstance.
  rewrite (inv_hooks _ _ _ HI), notify_lookup by apply HI.
  rewrite decide_True by (apply list_elem_of_fmap; by exists (h, l)).
  rewrite Hcap, window_notify, Hsub. simpl. by rewrite fmap_app.
Qed.

Lemma captured_notify_released cbs subs w info h l :
  Inv cbs subs w → l ∉ subs.*2 → subscribed h (log w) = false →
  captured w h l → captured (notify info w) h l.
Proof.
  intros HI Hin Hsub Hcap. unfold captured, notify in *. simpl.
  unfold notifyOnExistenceFilterMismatch, getOrCreateInstance.
  rewrite (inv_hooks _ _ _ HI), notify_lookup by apply HI.
  rewrite decide_False by done.
  by rewrite Hcap, window_notify, Hsub.
Qed.

Lemma inv_notify cbs subs w info :
  Inv cbs subs w → Inv cbs subs (notify info w).
Proof.
  intros HI. split.
  - apply HI.
  - apply HI.
  - apply HI.
  - intros h l Hin. destruct (inv_bounds _ _ _ HI h l Hin) as [? ?].
    split; [done |]. simpl. unfold notifyOnExistenceFilterMismatch, getOrCreateInstance.
    by rewrite (inv_hooks _ _ _ HI), notify_length.
  - simpl. intros h [Heq | Hin]%elem_of_cons; [done |].
    by apply (inv_log _ _ _ HI).
  - simpl. intros i st Hi.
    destruct (inv_tasks _ _ _ HI i st Hi) as (cb & Hcb & Hst).
    exists cb. split; [done |].
    destruct st as [c | l h k | l h settled | h [[l r] | e]]; simpl in *.
    + done.
    + destruct Hst as (? & ? & ? & ?). split_and!; [done | done | |].
      * by rewrite subscribed_notify.
      * by eapply captured_notify_subscribed.
    + destruct Hst as (? & ? & ? & ?). split_and!; [done | done | |].
      * by rewrite subscribed_notify.
      * by eapply captured_notify_subscribed.
    + destruct Hst as (? & ? & ? & ? & ? & ? & ?).
      split_and!; [done | done | | | done | done |].
      * by rewrite subscribed_notify.
      * by right.
      * by eapply captured_notify_released.
    + destruct Hst as (? & ? & ? & ? & ?).
      split_and!; [done | done | | | done].
      * by rewrite subscribed_notify.
      * by right.
  - apply HI.
Qed.

Lemma lookup_snoc_capture (ts : list (Task Error T)) bg i st :
  (ts ++ [Background bg]) !! i = Some (Capture st) → ts !! i = Some (Capture st).
Proof.
  intros Hi. destruct (decide (i < length ts)) as [Hlt | Hge].
  - by rewrite lookup_app_l in Hi.
  - rewrite lookup_app_r in Hi by lia.
    destruct (i - length ts) as [|n]; simpl in Hi; [done |].
    by rewrite lookup_nil in Hi.
Qed.

Lemma inv_spawn cbs subs w bg :
  Inv cbs subs w → Inv cbs subs (spawn bg w).
Proof.
  intros HI. split; try apply HI.
  - simpl. intros i st Hi%lookup_snoc_capture.
    by apply (inv_tasks _ _ _ HI).
  - simpl. intros i j sti stj h li lj Hi%lookup_snoc_capture
      Hj%lookup_snoc_capture. by apply (inv_owner _ _ _ HI).
Qed.

(** A slot is overwritten by a capture state that holds the same
    subscription, or none. *)
Lemma inv_set_task cbs subs w i st st' :
  Inv cbs subs w →
  tasks w !! i = Some (Capture st) →
  (subscription st' = subscription st ∨ subscription st' = None) →
  task_inv cbs subs w i st' →
  Inv cbs subs (set_task i (Capture st') w).
Proof.
  intros HI Hi Hsub Hst'. split; try apply HI.
  - simpl. intros j stj Hj.
    destruct (decide (i = j)) as [<- | Hne].
    + rewrite list_lookup_insert_eq in Hj by (by eapply lookup_lt_Some).
      by injection Hj as <-.
    + rewrite list_lookup_insert_ne in Hj by done.
      by apply (inv_tasks _ _ _ HI).
  - simpl. intros j1 j2 st1 st2 h l1 l2 H1 H2 Hs1 Hs2.
    assert (∀ j stj lj,
      <[i:=Capture st']> (tasks w) !! j = Some (Capture stj) →
      subscription stj = Some (h, lj) →
      ∃ stj', tasks w !! j = Some (Capture stj')
              ∧ subscription stj' = Some (h, lj)) as Hold.
    { intros j stj lj Hj Hsj. destruct (decide (i = j)) as [<- | Hne].
      - rewrite list_lookup_insert_eq in Hj by (by eapply lookup_lt_Some).
        injection Hj as <-. exists st. split; [done |].
        destruct Hsub as [<- | Hnone]; [done | congruence].
      - rewrite list_lookup_insert_ne in Hj by done. by exists stj. }
    destruct (Hold j1 st1 l1 H1 Hs1) as (? & ? & ?).
    destruct (Hold j2 st2 l2 H2 Hs2) as (? & ? & ?).
    by eapply (inv_owner _ _ _ HI).
Qed.

Lemma inv_set_background cbs subs w i j j' :
  Inv cbs subs w →
  tasks w !! i = Some (Background j) →
  Inv cbs subs (set_task i (Background j') w).
Proof.
  intros HI Hi.
  assert (∀ n stn, <[i:=Background j']> (tasks w) !! n = Some (Capture stn) →
                   tasks w !! n = Some (Capture stn)) as Hold.
  { intros n stn Hn. destruct (decide (i = n)) as [<- | Hne].
    - by rewrite list_lookup_insert_eq in Hn by (by eapply lookup_lt_Some).
    - by rewrite list_lookup_insert_ne in Hn by done. }
  split; try apply HI.
  - simpl. intros n stn Hn%Hold. by apply (inv_tasks _ _ _ HI).
  - simpl. intros n1 n2 st1 st2 h l1 l2 H1%Hold H2%Hold.
    by apply (inv_owner _ _ _ HI).
Qed.

Lemma task_inv_register cbs subs w j st ts :
  Inv cbs subs w → task_inv cbs subs w j st →
  task_inv cbs (subs ++ [(nextId (hooks w), length (heap w))])
    {| hooks := (onExistenceFilterMismatch
                   (onExistenceFilterMismatchCallback (length (heap w)))
                   (hooks w)).2;
       heap := heap w ++ [[]]; tasks := ts;
       log := EvRegister (nextId (hooks w)) :: log w |} j st.
Proof.
  intros HI (cb & Hcb & Hst). exists cb. split; [done |].
  assert (∀ h l, captured w h l →
    captured {| hooks := (onExistenceFilterMismatch
                   (onExistenceFilterMismatchCallback (length (heap w)))
                   (hooks w)).2;
       heap := heap w ++ [[]]; tasks := ts;
       log := EvRegister (nextId (hooks w)) :: log w |} h l) as Hcap.
  { unfold captured. simpl. intros h l Hl. rewrite window_register.
    rewrite lookup_app_l by (by eapply lookup_lt_Some). done. }
  destruct st as [c | l h k | l h settled | h res]; simpl in *.
  - done.
  - destruct Hst as (? & ? & Hsub & ?). split_and!; [done | | | by apply Hcap].
    + apply elem_of_app. by left.
    + by rewrite subscribed_register, Hsub.
  - destruct Hst as (? & ? & Hsub & ?). split_and!; [done | | | by apply Hcap].
    + apply elem_of_app. by left.
    + by rewrite subscribed_register, Hsub.
  - destruct Hst as (Hlt & Hnin & Hsub & Hev & Hres).
    split_and!.
    + lia.
    + rewrite fmap_app. apply not_elem_of_app. split; [done |].
      simpl. intros ->%list_elem_of_singleton. lia.
    + rewrite subscribed_register, Hsub. simpl.
      apply bool_decide_eq_false_2. lia.
    + by right.
    + destruct res as [[l r] | e]; [| done].
      destruct Hres as (? & Hl & Hc). split_and!; [done | | by apply Hcap].
      rewrite fmap_app. apply not_elem_of_app. split; [done |].
      simpl. intros ->%list_elem_of_singleton.
      apply lookup_lt_Some in Hc. lia.
Qed.

Lemma inv_register cbs subs w i callback :
  Inv cbs subs w → tasks w !! i = Some (Capture (Called callback)) →
  Inv cbs (subs ++ [(nextId (hooks w), length (heap w))])
    {| hooks := (onExistenceFilterMismatch
                   (onExistenceFilterMismatchCallback (length (heap w)))
                   (hooks w)).2;
       heap := heap w ++ [[]];
       tasks := <[i := Capture (Awaiting (length (heap w)) (nextId (hooks w))
                                  callback)]> (tasks w);
       log := EvRegister (nextId (hooks w)) :: log w |}.
Proof.
  intros HI Hi.
  assert (∀ h l, (h, l) ∈ subs → h < nextId (hooks w) ∧ l < length (heap w))
    as Hb by apply HI.
  split.
  - simpl. by rewrite (inv_hooks _ _ _ HI), fmap_app.
  - rewrite fmap_app. apply NoDup_app. split_and!; [apply HI | | apply NoDup_singleton].
    intros h [[h' l] [Heq Hin]]%list_elem_of_fmap Hnew%list_elem_of_singleton.
    apply Hb in Hin. simpl in *. lia.
  - rewrite fmap_app. apply NoDup_app. split_and!; [apply HI | | apply NoDup_singleton].
    intros l [[h l'] [Heq Hin]]%list_elem_of_fmap Hnew%list_elem_of_singleton.
    apply Hb in Hin. simpl in *. lia.
  - simpl. intros h l [Hin | Hnew%list_elem_of_singleton]%elem_of_app.
    + apply Hb in Hin. rewrite length_app. simpl. lia.
    + injection Hnew as -> ->. rewrite length_app. simpl. lia.
  - simpl. intros h [Heq | Hin]%elem_of_cons.
    + injection Heq as ->. lia.
    + apply (inv_log _ _ _ HI) in Hin. lia.
  - simpl. intros j st Hj. destruct (decide (i = j)) as [<- | Hne].
    + rewrite list_lookup_insert_eq in Hj by (by eapply lookup_lt_Some).
      injection Hj as <-.
      destruct (inv_tasks _ _ _ HI i _ Hi) as (cb & Hcb & ->).
      exists cb. split; [done |]. simpl. split_and!.
      * done.
      * apply elem_of_app. right. by apply list_elem_of_singleton.
      * rewrite subscribed_register, bool_decide_eq_true_2 by done.
        apply orb_true_r.
      * unfold captured. simpl. rewrite window_register.
        unfold window. rewrite observe_fresh.
        { by rewrite lookup_app_r, Nat.sub_diag by lia. }
        intros h' Hin%(inv_log _ _ _ HI). lia.
    + rewrite list_lookup_insert_ne in Hj by done.
      apply task_inv_register; [done |]. by apply (inv_tasks _ _ _ HI).
  - simpl. intros j1 j2 st1 st2 h l1 l2 H1 H2 Hs1 Hs2.
    destruct (decide (i = j1)) as [<- | Hne1];
      destruct (decide (i = j2)) as [<- | Hne2]; [done | | |].
    + exfalso.
      rewrite list_lookup_insert_eq in H1 by (by eapply lookup_lt_Some).
      injection H1 as <-. simpl in Hs1. injection Hs1 as <- <-.
      rewrite list_lookup_insert_ne in H2 by done.
      destruct (inv_tasks _ _ _ HI _ _ H2) as (cb & _ & Hst).
      destruct st2; simpl in *; try done;
        injection Hs2 as -> ->; destruct Hst as (_ & Hin%Hb & _); lia.
    + exfalso.
      rewrite list_lookup_insert_eq in H2 by (by eapply lookup_lt_Some).
      injection H2 as <-. simpl in Hs2. injection Hs2 as <- <-.
      rewrite list_lookup_insert_ne in H1 by done.
      destruct (inv_tasks _ _ _ HI _ _ H1) as (cb & _ & Hst).
      destruct st1; simpl in *; try done;
        injection Hs1 as -> ->; destruct Hst as (_ & Hin%Hb & _); lia.
    + rewrite list_lookup_insert_ne in H1, H2 by done.
      by eapply (inv_owner _ _ _ HI).
Qed.

Lemma filter_entry h subs :
  filter (λ e, e.1 ≠ h) (entry (Error:=Error) <$> subs)
  = entry <$> filter (λ s, s.1 ≠ h) subs.
Proof.
  induction subs as [|[h' l'] subs IH]; [done |].
  rewrite fmap_cons, !filter_cons. simpl.
  case_decide; [by rewrite fmap_cons, IH | done].
Qed.

Lemma NoDup_fmap_filter {A B : Type} (f : A → B) (P : A → Prop)
    `{∀ x, Decision (P x)} (xs : list A) :
  NoDup (f <$> xs) → NoDup (f <$> filter P xs).
Proof.
  induction xs as [|x xs IH]; [done |].
  rewrite fmap_cons, filter_cons. intros [Hx Hnd]%NoDup_cons.
  case_decide; [| by apply IH].
  rewrite fmap_cons. apply NoDup_cons. split; [| by apply IH].
  intros [y [Hy [_ Hin]%list_elem_of_filter]]%list_elem_of_fmap.
  apply Hx. apply list_elem_of_fmap. by exists y.
Qed.

Lemma NoDup_snd_inj subs h1 h2 l :
  NoDup subs.*2 → (h1, l) ∈ subs → (h2, l) ∈ subs → h1 = h2.
Proof.
  induction subs as [|[h' l'] subs IH]; intros Hnd H1 H2.
  { by apply elem_of_nil in H1. }
  rewrite fmap_cons in Hnd. apply NoDup_cons in Hnd as [Hl' Hnd]. simpl in Hl'.
  apply elem_of_cons in H1 as [H1 | H1]; apply elem_of_cons in H2 as [H2 | H2].
  - congruence.
  - injection H1 as -> ->. exfalso. apply Hl'.
    apply list_elem_of_fmap. by exists (h2, l').
  - injection H2 as -> ->. exfalso. apply Hl'.
    apply list_elem_of_fmap. by exists (h1, l').
  - by apply IH.
Qed.

Lemma task_inv_release cbs subs w j st ts h l :
  Inv cbs subs w → (h, l) ∈ subs →
  (∀ l', subscription st ≠ Some (h, l')) →
  task_inv cbs subs w j st →
  task_inv cbs (filter (λ s, s.1 ≠ h) subs)
    {| hooks := unregister h (hooks w); heap := heap w; tasks := ts;
       log := EvUnregister h :: log w |} j st.
Proof.
  intros HI Hhl Hother (cb & Hcb & Hst). exists cb. split; [done |].
  assert (∀ h' l', captured w h' l' →
    captured {| hooks := unregister h (hooks w); heap := heap w; tasks := ts;
                log := EvUnregister h :: log w |} h' l') as Hcap.
  { unfold captured. simpl. intros h' l' Hl. by rewrite window_unregister. }
  assert (∀ h' l', (h', l') ∈ subs → h' ≠ h →
                   (h', l') ∈ filter (λ s, s.1 ≠ h) subs) as Hkeep.
  { intros h' l' Hin Hne. by apply list_elem_of_filter. }
  assert (∀ h', h' ∉ subs.*1 → h' ∉ (filter (λ s, s.1 ≠ h) subs).*1) as Hout1.
  { intros h' Hnin [y [-> [_ Hin]%list_elem_of_filter]]%list_elem_of_fmap.
    apply Hnin. apply list_elem_of_fmap. by exists y. }
  assert (∀ l', l' ∉ subs.*2 → l' ∉ (filter (λ s, s.1 ≠ h) subs).*2) as Hout2.
  { intros l' Hnin [y [-> [_ Hin]%list_elem_of_filter]]%list_elem_of_fmap.
    apply Hnin. apply list_elem_of_fmap. by exists y. }
  destruct st as [c | l' h' k | l' h' settled | h' res]; simpl in *.
  - done.
  - destruct Hst as (? & Hin & Hsub & ?).
    assert (h' ≠ h) by (intros ->; by apply (Hother l')).
    split_and!; [done | by apply Hkeep | | by apply Hcap].
    rewrite subscribed_unregister, Hsub. simpl. by apply bool_decide_eq_true_2.
  - destruct Hst as (? & Hin & Hsub & ?).
    assert (h' ≠ h) by (intros ->; by apply (Hother l')).
    split_and!; [done | by apply Hkeep | | by apply Hcap].
    rewrite subscribed_unregister, Hsub. simpl. by apply bool_decide_eq_true_2.
  - destruct Hst as (Hlt & Hnin & Hsub & Hev & Hres).
    split_and!; [done | by apply Hout1 | | by right |].
    + by rewrite subscribed_unregister, Hsub.
    + destruct res as [[l' r] | e]; [| done].
      destruct Hres as (? & ? & ?).
      split_and!; [done | by apply Hout2 | by apply Hcap].
Qed.

Lemma inv_release cbs subs w i results h settled :
  Inv cbs subs w →
  tasks w !! i = Some (Capture (Resuming results h settled)) →
  Inv cbs (filter (λ s, s.1 ≠ h) subs)
    (set_task i
       (Capture (Finished h
          match settled with
          | Normal callbackResult => Normal (results, callbackResult)
          | Abrupt e => Abrupt e
          end))
       {| hooks := unregister h (hooks w); heap := heap w; tasks := tasks w;
          log := EvUnregister h :: log w |}).
Proof.
  intros HI Hi.
  destruct (inv_tasks _ _ _ HI _ _ Hi) as (cb & Hcb & Hst). simpl in Hst.
  destruct Hst as (-> & Hin & Hsub & Hcap).
  split.
  - simpl. by rewrite (inv_hooks _ _ _ HI), filter_entry.
  - apply NoDup_fmap_filter, HI.
  - apply NoDup_fmap_filter, HI.
  - simpl. intros h' l' [_ Hin']%list_elem_of_filter.
    by apply (inv_bounds _ _ _ HI).
  - simpl. intros h' [Heq | Hin']%elem_of_cons; [done |].
    by apply (inv_log _ _ _ HI).
  - simpl. intros j st Hj. destruct (decide (i = j)) as [<- | Hne].
    + rewrite list_lookup_insert_eq in Hj by (by eapply lookup_lt_Some).
      injection Hj as <-. exists cb. split; [done |]. simpl.
      split_and!.
      * by apply (inv_bounds _ _ _ HI) in Hin as [? _].
      * intros [y [Hy [Hne _]%list_elem_of_filter]]%list_elem_of_fmap. done.
      * rewrite subscribed_unregister, bool_decide_eq_false_2 by (by intros ?).
        apply andb_false_r.
      * by left.
      * destruct (outcome cb) as [r | e]; [| done].
        split_and!; [done | |].
        -- intros [[h' l'] [Hy [Hne Hin']%list_elem_of_filter]]%list_elem_of_fmap.
           simpl in *. subst l'. apply Hne.
           by eapply NoDup_snd_inj; [apply HI | |].
        -- unfold captured in *. simpl. by rewrite window_unregister.
    + rewrite list_lookup_insert_ne in Hj by done.
      eapply task_inv_release; [done | done | | by apply (inv_tasks _ _ _ HI)].
      intros l' Hs. apply Hne. by eapply (inv_owner _ _ _ HI).
  - simpl. intros j1 j2 st1 st2 h' l1 l2 H1 H2 Hs1 Hs2.
    destruct (decide (i = j1)) as [<- | Hne1].
    { rewrite list_lookup_insert_eq in H1 by (by eapply lookup_lt_Some).
      by injection H1 as <-. }
    destruct (decide (i = j2)) as [<- | Hne2].
    { rewrite list_lookup_insert_eq in H2 by (by eapply lookup_lt_Some).
      by injection H2 as <-. }
    rewrite list_lookup_insert_ne in H1, H2 by done.
    by eapply (inv_owner _ _ _ HI).
Qed.

(** *** The stretches of the work *)

Lemma run_callback_inv cbs subs c w w' r :
  Inv cbs subs w → run_callback c w = (w', r) → Inv cbs subs w'.
Proof.
  revert w. induction c as [r0 | e | info k IH | k IH | bg k IH];
    intros w HI Hrun; simpl in Hrun.
  - by injection Hrun as <- _.
  - by injection Hrun as <- _.
  - eapply IH; [| done]. by apply inv_notify.
  - by injection Hrun as <- _.
  - eapply IH; [| done]. by apply inv_spawn.
Qed.

Lemma run_callback_tasks c w w' r n (t : Task Error T) :
  run_callback c w = (w', r) → tasks w !! n = Some t → tasks w' !! n = Some t.
Proof.
  revert w. induction c as [r0 | e | info k IH | k IH | bg k IH];
    intros w Hrun Hn; simpl in Hrun.
  - by injection Hrun as <- _.
  - by injection Hrun as <- _.
  - by eapply IH.
  - by injection Hrun as <- _.
  - eapply IH; [done |]. simpl. by apply lookup_app_l_Some.
Qed.

Lemma run_callback_result c w w' r :
  run_callback c w = (w', r) →
  match r with
  | inl k => outcome k = outcome c ∧ awaits c = S (awaits k)
  | inr settled => settled = outcome c ∧ awaits c = 0
  end.
Proof.
  revert w. induction c as [r0 | e | info k IH | k IH | bg k IH];
    intros w Hrun; simpl in Hrun.
  - by injection Hrun as _ <-.
  - by injection Hrun as _ <-.
  - by eapply IH.
  - by injection Hrun as _ <-.
  - by eapply IH.
Qed.

Lemma run_job_inv cbs subs (j j' : Job Error) w w' :
  Inv cbs subs w → run_job j w = (w', j') → Inv cbs subs w'.
Proof.
  revert w. induction j as [| info k IH | k IH]; intros w HI Hrun;
    simpl in Hrun.
  - by injection Hrun as <- _.
  - eapply IH; [| done]. by apply inv_notify.
  - by injection Hrun as <- _.
Qed.

Lemma run_job_tasks (j j' : Job Error) w w' :
  run_job j w = (w', j') → tasks w' = tasks w.
Proof.
  revert w. induction j as [| info k IH | k IH]; intros w Hrun; simpl in Hrun.
  - by injection Hrun as <- _.
  - by rewrite (IH _ Hrun).
  - by injection Hrun as <- _.
Qed.

Lemma inv_advance cbs subs w i results h k :
  Inv cbs subs w →
  tasks w !! i = Some (Capture (Awaiting results h k)) →
  Inv cbs subs (advance i results h k w).
Proof.
  intros HI Hi. unfold advance.
  destruct (run_callback k w) as [w' r] eqn:Hrun.
  pose proof (run_callback_inv _ _ _ _ _ _ HI Hrun) as HI'.
  pose proof (run_callback_tasks _ _ _ _ _ _ Hrun Hi) as Hi'.
  pose proof (run_callback_result _ _ _ _ Hrun) as Hr.
  destruct (inv_tasks _ _ _ HI' _ _ Hi') as (cb & Hcb & Hst). simpl in Hst.
  destruct Hst as (Hout & Hin & Hsub & Hcap).
  eapply inv_set_task; [done | done | |].
  - left. by destruct r.
  - exists cb. split; [done |]. destruct r as [k' | settled]; simpl.
    + destruct Hr as [Hk _]. split_and!; [congruence | done..].
    + destruct Hr as [Hk _]. split_and!; [congruence | done..].
Qed.

Lemma inv_step cbs subs w i :
  Inv cbs subs w → ∃ subs', Inv cbs subs' (step i w).
Proof.
  intros HI. unfold step.
  destruct (tasks w !! i) as [[st | j] |] eqn:Hi; [| | by exists subs].
  - destruct st as [c | l h k | l h settled | h res]; simpl.
    + eexists. apply inv_advance.
      * by apply inv_register.
      * simpl. apply list_lookup_insert_eq. by eapply lookup_lt_Some.
    + exists subs. by apply inv_advance.
    + eexists. by apply inv_release.
    + by exists subs.
  - destruct (run_job j w) as [w' j'] eqn:Hrun. exists subs.
    eapply inv_set_background.
    + by eapply run_job_inv.
    + by rewrite (run_job_tasks _ _ _ _ Hrun).
Qed.

Lemma inv_boot cbs (jobs : list (Job Error)) : Inv cbs [] (boot cbs jobs).
Proof.
  assert (∀ i st, tasks (boot cbs jobs) !! i = Some (Capture st) →
                  ∃ c, cbs !! i = Some c ∧ st = Called c) as Hboot.
  { simpl. intros i st Hi. apply lookup_app_Some in Hi as [Hi | [_ Hi]].
    - rewrite list_lookup_fmap in Hi.
      destruct (cbs !! i) as [c |]; [| done].
      simpl in Hi. injection Hi as <-. by exists c.
    - rewrite list_lookup_fmap in Hi.
      by destruct (jobs !! _). }
  split.
  - done.
  - apply NoDup_nil_2.
  - apply NoDup_nil_2.
  - by intros h l ?%elem_of_nil.
  - simpl. by intros h ?%elem_of_nil.
  - intros i st (c & Hc & ->)%Hboot. by exists c.
  - intros i j sti stj h li lj (c & Hc & ->)%Hboot. done.
Qed.

Lemma inv_run cbs subs w sched :
  Inv cbs subs w → ∃ subs', Inv cbs subs' (run sched w).
Proof.
  revert subs w. induction sched as [|i sched IH]; intros subs w HI.
  - by exists subs.
  - destruct (inv_step _ _ _ i HI) as [subs' HI']. by eapply IH.
Qed.

(** *** Progress *)

Lemma step_other i j w (t : Task Error T) :
  i ≠ j → tasks w !! j = Some t → tasks (step i w) !! j = Some t.
Proof.
  intros Hne Hj. unfold step.
  destruct (tasks w !! i) as [[st | job] |] eqn:Hi; [| | done].
  - assert (∀ l h k w0, tasks w0 !! j = Some t →
                        tasks (advance i l h k w0) !! j = Some t) as Hadv.
    { intros l h k w0 Hj0. unfold advance.
      destruct (run_callback k w0) as [w' r] eqn:Hrun. simpl.
      rewrite list_lookup_insert_ne by done.
      by eapply run_callback_tasks. }
    destruct st as [c | l h k | l h settled | h res]; simpl.
    + apply Hadv. simpl. by rewrite list_lookup_insert_ne.
    + by apply Hadv.
    + by rewrite list_lookup_insert_ne.
    + done.
  - destruct (run_job job w) as [w' j'] eqn:Hrun. simpl.
    rewrite list_lookup_insert_ne by done.
    by rewrite (run_job_tasks _ _ _ _ Hrun).
Qed.

Lemma step_self i w st :
  tasks w !! i = Some (Capture st) →
  ∃ st', tasks (step i w) !! i = Some (Capture st')
         ∧ remaining st' = pred (remaining st).
Proof.
  intros Hi. unfold step. rewrite Hi.
  assert (∀ l h k w0, i < length (tasks w0) →
    ∃ st', tasks (advance i l h k w0) !! i = Some (Capture st')
           ∧ remaining st' = S (awaits k)) as Hadv.
  { intros l h k w0 Hlt. unfold advance.
    destruct (run_callback k w0) as [w' r] eqn:Hrun. simpl.
    eexists. split.
    - apply list_lookup_insert_eq.
      destruct (lookup_lt_is_Some_2 _ _ Hlt) as [t Ht].
      eapply lookup_lt_Some. by eapply run_callback_tasks.
    - pose proof (run_callback_result _ _ _ _ Hrun) as Hr.
      destruct r; simpl; lia. }
  apply lookup_lt_Some in Hi as Hlt.
  destruct st as [c | l h k | l h settled | h res]; simpl.
  - destruct (Hadv (length (heap w)) (nextId (hooks w)) c
      {| hooks := (onExistenceFilterMismatch
                     (onExistenceFilterMismatchCallback (length (heap w)))
                     (hooks w)).2;
         heap := heap w ++ [[]];
         tasks := <[i := Capture (Awaiting (length (heap w))
                                    (nextId (hooks w)) c)]> (tasks w);
         log := EvRegister (nextId (hooks w)) :: log w |})
      as (st' & Hst' & Hrem).
    { simpl. by rewrite length_insert. }
    exists st'. split; [done |]. lia.
  - destruct (Hadv l h k w Hlt) as (st' & Hst' & Hrem).
    exists st'. split; [done |]. lia.
  - eexists. split; [by apply list_lookup_insert_eq | done].
  - by exists (Finished h res).
Qed.

Lemma run_progress sched i w st :
  tasks w !! i = Some (Capture st) →
  ∃ st', tasks (run sched w) !! i = Some (Capture st')
         ∧ remaining st' = remaining st - turns i sched.
Proof.
  revert w st. induction sched as [|j sched IH]; intros w st Hi.
  - exists st. split; [done |]. unfold turns. simpl. lia.
  - simpl. unfold turns. rewrite filter_cons.
    destruct (decide (j = i)) as [-> | Hne].
    + destruct (step_self _ _ _ Hi) as (st1 & H1 & Hrem1).
      destruct (IH _ _ H1) as (st' & H' & Hrem').
      exists st'. split; [done |]. unfold turns in Hrem'. simpl. lia.
    + destruct (IH _ _ (step_other _ _ _ _ Hne Hi)) as (st' & H' & Hrem').
      exists st'. split; [done |]. by unfold turns in Hrem'.
Qed.

Lemma boot_lookup cbs (jobs : list (Job Error)) i callback :
  cbs !! i = Some callback →
  tasks (boot cbs jobs) !! i = Some (Capture (Called callback)).
Proof.
  intros Hi. simpl. apply lookup_app_l_Some.
  by rewrite list_lookup_fmap, Hi.
Qed.

(** Given enough turns, a capture finishes. *)
Lemma capture_finishes cbs (jobs : list (Job Error)) sched i callback :
  cbs !! i = Some callback →
  awaits callback + 2 ≤ turns i sched →
  ∃ h result,
    tasks (run sched (boot cbs jobs)) !! i = Some (Capture (Finished h result)).
Proof.
  intros Hi Hturns.
  destruct (run_progress sched i _ _ (boot_lookup _ jobs _ _ Hi))
    as (st' & Hst' & Hrem).
  simpl in Hrem.
  destruct st' as [c | l h k | l h settled | h res]; simpl in Hrem; try lia.
  by exists h, res.
Qed.

(** *** A program in which no work reports a mismatch *)








(** *** The capture, end to end *)

Lemma finished_inv cbs (jobs : list (Job Error)) sched i callback h result :
  cbs !! i = Some callback →
  tasks (run sched (boot cbs jobs)) !! i = Some (Capture (Finished h result)) →
  ∃ subs, Inv cbs subs (run sched (boot cbs jobs))
    ∧ (h ∉ subs.*1)
    ∧ subscribed h (log (run sched (boot cbs jobs))) = false
    ∧ EvUnregister h ∈ log (run sched (boot cbs jobs))
    ∧ match result with
      | Normal (results, r) =>
          outcome callback = Normal r
          ∧ captured (run sched (boot cbs jobs)) h results
      | Abrupt e => outcome callback = Abrupt e
      end.
Proof.
  intros Hcb Hi.
  destruct (inv_run cbs [] (boot cbs jobs) sched (inv_boot cbs jobs))
    as [subs HI].
  destruct (inv_tasks _ _ _ HI _ _ Hi) as (cb & Hcb' & Hst).
  rewrite Hcb in Hcb'. injection Hcb' as <-. simpl in Hst.
  destruct Hst as (_ & Hnin & Hsub & Hev & Hres).
  exists subs. split_and!; [done..|].
  destruct result as [[l r] | e]; [| done]. by destruct Hres as (? & _ & ?).
Qed.


Lemma subscription_inv cbs subs w i st h l :
  Inv cbs subs w → tasks w !! i = Some (Capture st) →
  subscription st = Some (h, l) →
  (h, l) ∈ subs ∧ subscribed h (log w) = true ∧ captured w h l.
Proof.
  intros HI Hi Hs. destruct (inv_tasks _ _ _ HI _ _ Hi) as (cb & _ & Hst).
  destruct st; simpl in *; try done; injection Hs as -> ->;
    by destruct Hst as (_ & ? & ? & ?).
Qed.

Lemma notify_subscribed cbs subs w i st h l info :
  Inv cbs subs w → tasks w !! i = Some (Capture st) →
  subscription st = Some (h, l) →
  ∃ a, heap w !! l = Some a
       ∧ heap (notify info w) !! l
         = Some (a ++ [createExistenceFilterMismatchInfoFrom info]).
Proof.
  intros HI Hi Hs.
  destruct (subscription_inv _ _ _ _ _ _ _ HI Hi Hs) as (Hin & Hsub & Hcap).
  eexists. split; [apply Hcap |].
  pose proof (captured_notify_subscribed _ _ _ info _ _ HI Hin Hsub Hcap) as Hc.
  unfold captured in Hc. rewrite Hc. simpl.
  by rewrite window_notify, Hsub, fmap_app.
Qed.

(** C5, as the code has it: two captures that are suspended at the same
    time hold different subscriptions and different arrays, and a mismatch
    published then is appended to the arrays of both. *)
Theorem concurrent_captures_both_receive cbs (jobs : list (Job Error))
    sched i j sti stj hi li hj lj info :
  let w := run sched (boot cbs jobs) in
  i ≠ j →
  tasks w !! i = Some (Capture sti) → subscription sti = Some (hi, li) →
  tasks w !! j = Some (Capture stj) → subscription stj = Some (hj, lj) →
  hi ≠ hj ∧ li ≠ lj
  ∧ (∃ a, heap w !! li = Some a
          ∧ heap (notify info w) !! li
            = Some (a ++ [createExistenceFilterMismatchInfoFrom info]))
  ∧ (∃ b, heap w !! lj = Some b
          ∧ heap (notify info w) !! lj
            = Some (b ++ [createExistenceFilterMismatchInfoFrom info])).
Proof.
  intros w Hne Hi Hsi Hj Hsj.
  destruct (inv_run cbs [] (boot cbs jobs) sched (inv_boot cbs jobs))
    as [subs HI]. fold w in HI.
  assert (hi ≠ hj) as Hh.
  { intros ->. apply Hne. by eapply (inv_owner _ _ _ HI). }
  split_and!;
    [ done |
    | exact (notify_subscribed _ _ _ _ _ _ _ info HI Hi Hsi)
    | exact (notify_subscribed _ _ _ _ _ _ _ info HI Hj Hsj) ].
  intros ->. apply Hh.
  destruct (subscription_inv _ _ _ _ _ _ _ HI Hi Hsi) as (? & _).
  destruct (subscription_inv _ _ _ _ _ _ _ HI Hj Hsj) as (? & _).
  by eapply NoDup_snd_inj; [apply HI | |].
Qed.

End CaptureFacts.

(** ** The properties at the sample data *)

Lemma mightContain_delegates_witness :
  call_mightContain
    (createExistenceFilterMismatchInfoFrom Sample.mismatch) Sample.doc1
  = Some (Normal true)
  ∧ call_mightContain
      (createExistenceFilterMismatchInfoFrom Sample.mismatch) Sample.doc2
    = Some (Normal false).
Proof.
  split.
  - exact (mightContain_delegates Sample.mismatch Sample.filter_with_predicate
             Sample.only_doc1 Sample.doc1 eq_refl eq_refl).
  - exact (mightContain_delegates Sample.mismatch Sample.filter_with_predicate
             Sample.only_doc1 Sample.doc2 eq_refl eq_refl).
Defined.

Lemma mightContain_absent_is_false_witness :
  call_mightContain
    (createExistenceFilterMismatchInfoFrom Sample.mismatch_without_predicate)
    Sample.doc1
  = Some (Normal false).
Proof.
  exact (mightContain_absent_is_false Sample.mismatch_without_predicate
           Sample.filter_without_predicate Sample.doc1 eq_refl eq_refl).
Defined.

Lemma translated_copies_fields_witness :
  let info := createExistenceFilterMismatchInfoFrom Sample.mismatch in
  info !! "localCacheCount" = Some (VNumber 5)
  ∧ info !! "existenceFilterCount" = Some (VNumber 6)
  ∧ ∃ o, get_bloomFilter info = Some o
      ∧ o !! "applied" = Some (VBoolean true)
      ∧ o !! "hashCount" = Some (VNumber 3)
      ∧ o !! "bitmapLength" = Some (VNumber 64)
      ∧ o !! "padding" = Some (VNumber 2).
Proof.
  exact (translated_copies_fields Sample.mismatch Sample.filter_with_predicate
           eq_refl).
Defined.


(** C5, as the specification states it, fails: both captures are suspended
    when the work of the first reports its mismatch; the work of the second
    reports nothing, and the second capture returns one record all the
    same. *)
Lemma concurrent_captures_counterexample :
  let w := run [0; 1; 0; 0; 1; 1]
             (boot [Sample.reporting; Sample.silent] []) in
  notifications Sample.reporting = [Sample.mismatch]
  ∧ notifications Sample.silent = []
  ∧ length <$> returned_records w 0 = Some 1
  ∧ length <$> returned_records w 1 = Some 1
  ∧ length <$> returned_records w 1 ≠ Some 0.
Proof. vm_compute. by split_and!. Qed.

Lemma concurrent_captures_both_receive_witness :
  let w := run [0; 1] (boot [Sample.reporting; Sample.silent] []) in
  0 ≠ 1 ∧ 0 ≠ 1
  ∧ (∃ a, heap w !! 0 = Some a
          ∧ heap (notify Sample.mismatch w) !! 0
            = Some (a ++ [createExistenceFilterMismatchInfoFrom Sample.mismatch]))
  ∧ (∃ b, heap w !! 1 = Some b
          ∧ heap (notify Sample.mismatch w) !! 1
            = Some (b ++ [createExistenceFilterMismatchInfoFrom Sample.mismatch])).
Proof.
  apply (concurrent_captures_both_receive
           [Sample.reporting; Sample.silent] [] [0; 1] 0 1
           (Awaiting 0 0 (Notify Sample.mismatch (Return 1%Z)))
           (Awaiting 1 1 (Return 2%Z)) 0 0 1 1 Sample.mismatch).
  - lia.
  - reflexivity.
  - reflexivity.
  - reflexivity.
  - reflexivity.
Defined.

(** C8, as the specification states it, fails: after the first turn the
    work has resolved with [42], nothing has been published and the detached
    action has not run; it runs in the second turn, and the capture, which
    resumes in the third, returns the record it published. *)
Lemma detached_action_counterexample :
  let settled := run [0] (boot [Sample.detaching] []) in
  let w := run [0; 1; 0] (boot [Sample.detaching] []) in
  tasks settled !! 0 = Some (Capture (Resuming 0 0 (Normal 42%Z)))
  ∧ tasks settled !! 1 = Some (Background (JNotify Sample.mismatch JDone))
  ∧ log settled = [EvRegister 0]
  ∧ log w = [EvUnregister 0; EvNotify Sample.mismatch; EvRegister 0]
  ∧ tasks w !! 0 = Some (Capture (Finished 0 (Normal (0, 42%Z))))
  ∧ length <$> returned_records w 0 = Some 1.
Proof. vm_compute. by split_and!. Qed.

(** ** More on the running program *)

Section RegistryUse.

Import TestingHooks.
Context {Error T : Type}.
Implicit Types (w : World Error T) (h : Handle) (l results : Loc)
  (info : ExistenceFilterMismatchInfoInternal Error)
  (subs : list (Handle * Loc))
  (st : CaptureState Error T) (c k callback : Async Error T)
  (cbs : list (Async Error T)) (jobs : list (Job Error)) (sched : list nat).

Lemma run_app sched sched' w : run (sched ++ sched') w = run sched' (run sched w).
Proof. unfold run. apply foldl_app. Qed.

Lemma reachable_inv cbs jobs sched :
  ∃ subs, Inv cbs subs (run sched (boot cbs jobs)).
Proof. exact (inv_run cbs [] (boot cbs jobs) sched (inv_boot cbs jobs)). Qed.

Lemma entry_handles subs : (entry (Error:=Error) <$> subs).*1 = subs.*1.
Proof. by rewrite <- list_fmap_compose. Qed.

(** In every state the program reaches, the subscription of a capture is in
    the registry while the capture is suspended in [await callback()], the
    callback pending or settled, and is not once the capture has returned or
    rethrown; no handle is in the registry twice. *)
Theorem subscription_registered_while_suspended cbs jobs sched i st :
  let w := run sched (boot cbs jobs) in
  tasks w !! i = Some (Capture st) →
  NoDup (callbacks (hooks w)).*1
  ∧ match st with
    | Called _ => True
    | Awaiting _ h _ | Resuming _ h _ => h ∈ (callbacks (hooks w)).*1
    | Finished h _ => h ∉ (callbacks (hooks w)).*1
    end.
Proof.
  intros w Hi. destruct (reachable_inv cbs jobs sched) as [subs HI]. fold w in HI.
  rewrite (inv_hooks _ _ _ HI), entry_handles.
  split; [apply HI |].
  destruct (inv_tasks _ _ _ HI _ _ Hi) as (cb & _ & Hst).
  destruct st as [c | l h k | l h settled | h res]; simpl in Hst.
  - done.
  - destruct Hst as (_ & Hin & _). apply list_elem_of_fmap. by exists (h, l).
  - destruct Hst as (_ & Hin & _). apply list_elem_of_fmap. by exists (h, l).
  - by destruct Hst as (_ & Hnin & _).
Qed.

(** *** Every entry of the registry has an owner *)

Lemma run_callback_hooks c w w' r :
  run_callback c w = (w', r) → hooks w' = hooks w.
Proof.
  revert w. induction c as [r0 | e | info k IH | k IH | bg k IH];
    intros w Hrun; simpl in Hrun.
  - by injection Hrun as <- _.
  - by injection Hrun as <- _.
  - by rewrite (IH _ Hrun).
  - by injection Hrun as <- _.
  - by rewrite (IH _ Hrun).
Qed.

Lemma run_job_hooks (j j' : Job Error) w w' :
  run_job (T:=T) j w = (w', j') → hooks w' = hooks w.
Proof.
  revert w. induction j as [| info k IH | k IH]; intros w Hrun; simpl in Hrun.
  - by injection Hrun as <- _.
  - by rewrite (IH _ Hrun).
  - by injection Hrun as <- _.
Qed.

Lemma owned_grow w w' :
  hooks w' = hooks w →
  (∀ n (t : Task Error T), tasks w !! n = Some t → tasks w' !! n = Some t) →
  owned w → owned w'.
Proof.
  intros Hh Ht Ho e He. rewrite Hh in He.
  destruct (Ho e He) as (n & st & l & Hn & Hs). exists n, st, l. auto.
Qed.

Lemma owned_set_task w i (t : Task Error T) :
  owned w →
  (∀ old s, tasks w !! i = Some (Capture old) → subscription old = Some s →
            ∃ st', t = Capture st' ∧ subscription st' = Some s) →
  owned (set_task i t w).
Proof.
  intros Ho Hkeep e He. simpl in He.
  destruct (Ho e He) as (n & st & l & Hn & Hs).
  destruct (decide (i = n)) as [<- | Hne].
  - destruct (Hkeep _ _ Hn Hs) as (st' & -> & Hs').
    exists i, st', l. split; [| done]. simpl.
    apply list_lookup_insert_eq. by eapply lookup_lt_Some.
  - exists n, st, l. split; [| done]. simpl. by rewrite list_lookup_insert_ne.
Qed.

Lemma owned_advance w i l h k :
  owned w → tasks w !! i = Some (Capture (Awaiting l h k)) →
  owned (advance i l h k w).
Proof.
  intros Ho Hi. unfold advance.
  destruct (run_callback k w) as [w' r] eqn:Hrun.
  apply owned_set_task.
  - eapply owned_grow; [by eapply run_callback_hooks | | done].
    intros n t. by eapply run_callback_tasks.
  - intros old s Hold Hs.
    rewrite (run_callback_tasks _ _ _ _ _ _ Hrun Hi) in Hold.
    injection Hold as <-. eexists. split; [done |]. by destruct r.
Qed.

Lemma owned_step w i : owned w → owned (step i w).
Proof.
  intros Ho. unfold step.
  destruct (tasks w !! i) as [[st | j] |] eqn:Hi; [| | done].
  - destruct st as [c | l h k | l h settled | h res]; simpl.
    + apply owned_advance.
      * intros e He. simpl in He.
        apply elem_of_app in He as [He | ->%list_elem_of_singleton].
        -- destruct (Ho e He) as (n & st & l & Hn & Hs).
           exists n, st, l. split; [| done]. simpl.
           rewrite list_lookup_insert_ne; [done |].
           intros <-. rewrite Hi in Hn. by injection Hn as <-.
        -- exists i. eexists. eexists. simpl. split.
           ++ apply list_lookup_insert_eq. by eapply lookup_lt_Some.
           ++ done.
      * simpl. apply list_lookup_insert_eq. by eapply lookup_lt_Some.
    + by apply owned_advance.
    + intros e He. simpl in He. apply list_elem_of_filter in He as [Hne He].
      destruct (Ho e He) as (n & st & l' & Hn & Hs).
      exists n, st, l'. split; [| done]. simpl.
      rewrite list_lookup_insert_ne; [done |].
      intros <-. rewrite Hi in Hn. injection Hn as <-. simpl in Hs.
      congruence.
    + done.
  - destruct (run_job j w) as [w' j'] eqn:Hrun.
    apply owned_set_task.
    + eapply owned_grow; [by eapply run_job_hooks | | done].
      intros n t. by rewrite (run_job_tasks _ _ _ _ Hrun).
    + intros old s Hold. rewrite (run_job_tasks _ _ _ _ Hrun), Hi in Hold. done.
Qed.

Lemma owned_run sched w : owned w → owned (run sched w).
Proof.
  revert w. induction sched as [|i sched IH]; intros w Ho; [done |].
  apply IH. by apply owned_step.
Qed.

Lemma owned_boot cbs jobs : owned (boot cbs jobs).
Proof. by intros e ?%elem_of_nil. Qed.

(** When every capture has had the turns it needs, whatever way their work
    settled, the registry is empty again: no subscription is left behind. *)
Theorem registry_empty_after_all_captures cbs jobs sched :
  (∀ i c, cbs !! i = Some c → awaits c + 2 ≤ turns i sched) →
  callbacks (hooks (run sched (boot cbs jobs))) = [].
Proof.
  intros Hturns.
  destruct (callbacks (hooks (run sched (boot cbs jobs)))) as [|e es] eqn:Hes;
    [done |]. exfalso.
  destruct (owned_run sched _ (owned_boot cbs jobs) e) as (n & st & l & Hn & Hs).
  { rewrite Hes. by left. }
  destruct (reachable_inv cbs jobs sched) as [subs HI].
  destruct (inv_tasks _ _ _ HI _ _ Hn) as (cb & Hcb & _).
  destruct (capture_finishes cbs jobs sched n cb Hcb (Hturns _ _ Hcb))
    as (h & res & Hfin).
  rewrite Hfin in Hn. by injection Hn as <-.
Qed.

End RegistryUse.

Section CaptureArrays.

Import TestingHooks.
Context {Error T : Type}.
Implicit Types (w : World Error T) (h : Handle) (l results : Loc)
  (info : ExistenceFilterMismatchInfoInternal Error)
  (events : list (Event Error))
  (subs : list (Handle * Loc))
  (st : CaptureState Error T) (c k callback : Async Error T)
  (cbs : list (Async Error T)) (jobs : list (Job Error)) (sched : list nat).

(** *** Each capture has an array of its own *)

Lemma notify_heap_length cbs subs w info :
  Inv cbs subs w → length (heap (notify info w)) = length (heap w).
Proof.
  intros HI. simpl. unfold notifyOnExistenceFilterMismatch, getOrCreateInstance.
  by rewrite (inv_hooks _ _ _ HI), notify_length.
Qed.

Lemma own_arrays_grow w w' :
  (∀ n st, tasks w' !! n = Some (Capture st) → tasks w !! n = Some (Capture st)) →
  length (heap w) ≤ length (heap w') →
  own_arrays w → own_arrays w'.
Proof.
  intros Ht Hlen [Hb Hd]. split.
  - intros n st l Hn%Ht Hl. specialize (Hb _ _ _ Hn Hl). lia.
  - intros n1 n2 st1 st2 l H1%Ht H2%Ht. by apply Hd.
Qed.

Lemma own_arrays_set_task w i st st' :
  own_arrays w → tasks w !! i = Some (Capture st) →
  (array_of st' = array_of st ∨ array_of st' = None) →
  own_arrays (set_task i (Capture st') w).
Proof.
  intros [Hb Hd] Hi Hsame.
  assert (∀ n stn l, <[i:=Capture st']> (tasks w) !! n = Some (Capture stn) →
    array_of stn = Some l →
    ∃ stn', tasks w !! n = Some (Capture stn') ∧ array_of stn' = Some l) as Hold.
  { intros n stn l Hn Hl. destruct (decide (i = n)) as [<- | Hne].
    - rewrite list_lookup_insert_eq in Hn by (by eapply lookup_lt_Some).
      injection Hn as <-. exists st. split; [done |].
      destruct Hsame as [<- | Hnone]; [done | congruence].
    - rewrite list_lookup_insert_ne in Hn by done. by exists stn. }
  split; simpl.
  - intros n stn l Hn Hl. destruct (Hold _ _ _ Hn Hl) as (? & ? & ?).
    by eapply Hb.
  - intros n1 n2 st1 st2 l H1 H2 Hl1 Hl2.
    destruct (Hold _ _ _ H1 Hl1) as (? & ? & ?).
    destruct (Hold _ _ _ H2 Hl2) as (? & ? & ?).
    by eapply Hd.
Qed.

Lemma own_arrays_set_background w i (j j' : Job Error) :
  own_arrays w → tasks w !! i = Some (Background j) →
  own_arrays (set_task (T:=T) i (Background j') w).
Proof.
  intros Ho Hi. eapply own_arrays_grow; [| | done]; [| done].
  simpl. intros n st Hn. destruct (decide (i = n)) as [<- | Hne].
  - by rewrite list_lookup_insert_eq in Hn by (by eapply lookup_lt_Some).
  - by rewrite list_lookup_insert_ne in Hn by done.
Qed.

Lemma own_arrays_run_callback cbs subs c w w' r :
  Inv cbs subs w → own_arrays w → run_callback c w = (w', r) → own_arrays w'.
Proof.
  revert w. induction c as [r0 | e | info k IH | k IH | bg k IH];
    intros w HI Ho Hrun; simpl in Hrun.
  - by injection Hrun as <- _.
  - by injection Hrun as <- _.
  - eapply IH; [by apply inv_notify | | done].
    eapply own_arrays_grow; [| | done]; [done |].
    by rewrite (notify_heap_length _ _ _ _ HI).
  - by injection Hrun as <- _.
  - eapply IH; [by apply inv_spawn | | done].
    eapply own_arrays_grow; [| | done]; [| done].
    simpl. intros n st. apply lookup_snoc_capture.
Qed.

Lemma own_arrays_run_job cbs subs (j j' : Job Error) w w' :
  Inv cbs subs w → own_arrays w → run_job j w = (w', j') → own_arrays w'.
Proof.
  revert w. induction j as [| info k IH | k IH]; intros w HI Ho Hrun;
    simpl in Hrun.
  - by injection Hrun as <- _.
  - eapply IH; [by apply inv_notify | | done].
    eapply own_arrays_grow; [| | done]; [done |].
    by rewrite (notify_heap_length _ _ _ _ HI).
  - by injection Hrun as <- _.
Qed.

Lemma own_arrays_advance cbs subs w i l h k :
  Inv cbs subs w → own_arrays w →
  tasks w !! i = Some (Capture (Awaiting l h k)) →
  own_arrays (advance i l h k w).
Proof.
  intros HI Ho Hi. unfold advance.
  destruct (run_callback k w) as [w' r] eqn:Hrun.
  eapply own_arrays_set_task.
  - by eapply own_arrays_run_callback.
  - by eapply run_callback_tasks.
  - left. by destruct r.
Qed.

Lemma own_arrays_step cbs subs w i :
  Inv cbs subs w → own_arrays w → own_arrays (step i w).
Proof.
  intros HI Ho. unfold step.
  destruct (tasks w !! i) as [[st | j] |] eqn:Hi; [| | done].
  - destruct st as [c | l h k | l h settled | h res]; simpl.
    + eapply own_arrays_advance.
      * by apply inv_register.
      * destruct Ho as [Hb Hd].
        assert (∀ n stn l', <[i:=Capture (Awaiting (length (heap w))
                    (nextId (hooks w)) c)]> (tasks w) !! n = Some (Capture stn) →
          array_of stn = Some l' →
          (n = i ∧ l' = length (heap w))
          ∨ (n ≠ i ∧ tasks w !! n = Some (Capture stn))) as Hold.
        { intros n stn l' Hn Hl. destruct (decide (i = n)) as [<- | Hne].
          - rewrite list_lookup_insert_eq in Hn by (by eapply lookup_lt_Some).
            injection Hn as <-. simpl in Hl. injection Hl as <-. by left.
          - rewrite list_lookup_insert_ne in Hn by done. right. by split. }
        split; simpl.
        -- intros n stn l' Hn Hl. rewrite length_app. simpl.
           destruct (Hold _ _ _ Hn Hl) as [[_ ->] | [_ Hn']]; [lia |].
           specialize (Hb _ _ _ Hn' Hl). lia.
        -- intros n1 n2 st1 st2 l' H1 H2 Hl1 Hl2.
           destruct (Hold _ _ _ H1 Hl1) as [[-> ->] | [Hne1 H1']];
             destruct (Hold _ _ _ H2 Hl2) as [[-> Heq] | [Hne2 H2']].
           ++ done.
           ++ specialize (Hb _ _ _ H2' Hl2). lia.
           ++ subst l'. specialize (Hb _ _ _ H1' Hl1). lia.
           ++ by eapply Hd.
      * simpl. apply list_lookup_insert_eq. by eapply lookup_lt_Some.
    + by eapply own_arrays_advance.
    + eapply (own_arrays_set_task
                {| hooks := unregister h (hooks w); heap := heap w;
                   tasks := tasks w; log := EvUnregister h :: log w |}).
      * done.
      * done.
      * destruct settled; [by left | by right].
    + done.
  - destruct (run_job j w) as [w' j'] eqn:Hrun.
    eapply own_arrays_set_background.
    + by eapply own_arrays_run_job.
    + by rewrite (run_job_tasks _ _ _ _ Hrun).
Qed.

Lemma own_arrays_run cbs subs w sched :
  Inv cbs subs w → own_arrays w → own_arrays (run sched w).
Proof.
  revert subs w. induction sched as [|i sched IH]; intros subs w HI Ho; [done |].
  destruct (inv_step _ _ _ i HI) as [subs' HI']. simpl.
  eapply IH; [done |]. by eapply own_arrays_step.
Qed.

Lemma own_arrays_boot cbs jobs : own_arrays (boot cbs jobs).
Proof.
  assert (∀ n st l, tasks (boot cbs jobs) !! n = Some (Capture st) →
                    array_of st = Some l → False) as Hboot.
  { intros n st l Hn Hl.
    destruct (inv_tasks _ _ _ (inv_boot cbs jobs) _ _ Hn) as (cb & Hcb & Hst).
    simpl in Hn. apply lookup_app_Some in Hn as [Hn | [_ Hn]].
    - rewrite list_lookup_fmap, Hcb in Hn. simpl in Hn. by injection Hn as <-.
    - rewrite list_lookup_fmap in Hn. by destruct (jobs !! _). }
  split.
  - intros n st l Hn Hl. destruct (Hboot _ _ _ Hn Hl).
  - intros n1 n2 st1 st2 l H1 _ Hl1. destruct (Hboot _ _ _ H1 Hl1).
Qed.

(** No two captures ever have the same array, whether they run at the same
    time or one after the other, and whether they are still suspended or
    have returned: [const results = []] makes a new array at every call. *)
Theorem captures_never_share_an_array cbs jobs sched i j sti stj li lj :
  let w := run sched (boot cbs jobs) in
  i ≠ j →
  tasks w !! i = Some (Capture sti) → array_of sti = Some li →
  tasks w !! j = Some (Capture stj) → array_of stj = Some lj →
  li ≠ lj ∧ is_Some (heap w !! li) ∧ is_Some (heap w !! lj).
Proof.
  intros w Hne Hi Hli Hj Hlj.
  destruct (own_arrays_run cbs [] (boot cbs jobs) sched (inv_boot cbs jobs)
              (own_arrays_boot cbs jobs)) as [Hb Hd]. fold w in Hb, Hd.
  split_and!.
  - intros ->. apply Hne. exact (Hd _ _ _ _ _ Hi Hj Hli Hlj).
  - apply lookup_lt_is_Some. exact (Hb _ _ _ Hi Hli).
  - apply lookup_lt_is_Some. exact (Hb _ _ _ Hj Hlj).
Qed.

(** *** The array a capture has returned is left alone *)

Lemma run_callback_heap cbs subs c w w' r l :
  Inv cbs subs w → l ∉ subs.*2 → run_callback c w = (w', r) →
  heap w' !! l = heap w !! l.
Proof.
  revert w. induction c as [r0 | e | info k IH | k IH | bg k IH];
    intros w HI Hl Hrun; simpl in Hrun.
  - by injection Hrun as <- _.
  - by injection Hrun as <- _.
  - rewrite (IH _ (inv_notify _ _ _ info HI) Hl Hrun). simpl.
    unfold notifyOnExistenceFilterMismatch, getOrCreateInstance.
    rewrite (inv_hooks _ _ _ HI), notify_lookup by apply HI.
    by rewrite decide_False.
  - by injection Hrun as <- _.
  - by rewrite (IH _ (inv_spawn _ _ _ bg HI) Hl Hrun).
Qed.

Lemma run_job_heap cbs subs (j j' : Job Error) w w' l :
  Inv cbs subs w → l ∉ subs.*2 → run_job j w = (w', j') →
  heap w' !! l = heap w !! l.
Proof.
  revert w. induction j as [| info k IH | k IH]; intros w HI Hl Hrun;
    simpl in Hrun.
  - by injection Hrun as <- _.
  - rewrite (IH _ (inv_notify _ _ _ info HI) Hl Hrun). simpl.
    unfold notifyOnExistenceFilterMismatch, getOrCreateInstance.
    rewrite (inv_hooks _ _ _ HI), notify_lookup by apply HI.
    by rewrite decide_False.
  - by injection Hrun as <- _.
Qed.

Lemma step_heap cbs subs w i l :
  Inv cbs subs w → l ∉ subs.*2 → l < length (heap w) →
  heap (step i w) !! l = heap w !! l.
Proof.
  intros HI Hl Hlt. unfold step.
  destruct (tasks w !! i) as [[st | j] |] eqn:Hi; [| | done].
  - destruct st as [c | l' h k | l' h settled | h res]; simpl.
    + unfold advance.
      destruct (run_callback c _) as [w' r] eqn:Hrun. simpl.
      erewrite run_callback_heap; [| by apply inv_register | | done].
      * simpl. by rewrite lookup_app_l.
      * rewrite fmap_app. apply not_elem_of_app. split; [done |].
        simpl. intros ->%list_elem_of_singleton. lia.
    + unfold advance. destruct (run_callback k w) as [w' r] eqn:Hrun. simpl.
      by eapply run_callback_heap.
    + done.
    + done.
  - destruct (run_job j w) as [w' j'] eqn:Hrun. simpl.
    by eapply run_job_heap.
Qed.

Lemma returned_records_stable cbs subs w i h l (r : T) sched :
  Inv cbs subs w →
  tasks w !! i = Some (Capture (Finished h (Normal (l, r)))) →
  tasks (run sched w) !! i = Some (Capture (Finished h (Normal (l, r))))
  ∧ heap (run sched w) !! l = heap w !! l.
Proof.
  revert subs w. induction sched as [|j sched IH]; intros subs w HI Hi; [done |].
  simpl.
  destruct (inv_tasks _ _ _ HI _ _ Hi) as (cb & _ & Hst). simpl in Hst.
  destruct Hst as (_ & _ & _ & _ & _ & Hnin & Hcap).
  assert (tasks (step j w) !! i = Some (Capture (Finished h (Normal (l, r)))))
    as Hi'.
  { destruct (decide (j = i)) as [-> | Hne]; [| by apply step_other].
    unfold step. by rewrite Hi. }
  destruct (inv_step _ _ _ j HI) as [subs' HI'].
  destruct (IH _ _ HI' Hi') as [Hfin Hheap].
  split; [done |]. rewrite Hheap.
  eapply step_heap; [done | done |]. by eapply lookup_lt_Some.
Qed.

(** Once a capture has returned, the array it returned is never written
    again, whatever runs and whatever is published afterwards. *)
Theorem returned_array_is_final cbs jobs sched sched' i h l (r : T) :
  tasks (run sched (boot cbs jobs)) !! i
    = Some (Capture (Finished h (Normal (l, r)))) →
  returned_records (run (sched ++ sched') (boot cbs jobs)) i
  = returned_records (run sched (boot cbs jobs)) i
  ∧ is_Some (returned_records (run sched (boot cbs jobs)) i).
Proof.
  intros Hi. destruct (reachable_inv cbs jobs sched) as [subs HI].
  destruct (returned_records_stable _ _ _ _ _ _ _ sched' HI Hi) as [Hfin Hheap].
  rewrite run_app. unfold returned_records. rewrite Hfin, Hi.
  split; [done |].
  destruct (inv_tasks _ _ _ HI _ _ Hi) as (cb & _ & Hst). simpl in Hst.
  destruct Hst as (_ & _ & _ & _ & _ & _ & Hcap). by rewrite Hcap.
Qed.

End CaptureArrays.

Section CaptureStart.

Import TestingHooks.
Context {Error T : Type}.
Implicit Types (w : World Error T) (h : Handle) (l results : Loc)
  (events : list (Event Error))
  (st : CaptureState Error T) (c k callback : Async Error T)
  (cbs : list (Async Error T)) (jobs : list (Job Error)) (sched : list nat).

(** *** A capture sees nothing of what was published before its call *)

Lemma observe_app_fresh h (new old : list (Event Error)) :
  observe h old = (false, []) → observe h (new ++ old) = observe h new.
Proof.
  intros Hold. induction new as [|ev new IH]; [done |].
  simpl. by rewrite IH.
Qed.

Lemma run_callback_log c w w' r :
  run_callback c w = (w', r) → ∃ new, log w' = new ++ log w.
Proof.
  revert w. induction c as [r0 | e | info k IH | k IH | bg k IH];
    intros w Hrun; simpl in Hrun.
  - injection Hrun as <- _. by exists [].
  - injection Hrun as <- _. by exists [].
  - destruct (IH _ Hrun) as [new Hnew]. exists (new ++ [EvNotify info]).
    by rewrite Hnew, <- app_assoc.
  - injection Hrun as <- _. by exists [].
  - destruct (IH _ Hrun) as [new Hnew]. by exists new.
Qed.

Lemma run_job_log (j j' : Job Error) w w' :
  run_job (T:=T) j w = (w', j') → ∃ new, log w' = new ++ log w.
Proof.
  revert w. induction j as [| info k IH | k IH]; intros w Hrun; simpl in Hrun.
  - injection Hrun as <- _. by exists [].
  - destruct (IH _ Hrun) as [new Hnew]. exists (new ++ [EvNotify info]).
    by rewrite Hnew, <- app_assoc.
  - injection Hrun as <- _. by exists [].
Qed.

Lemma step_log j w : ∃ new, log (step j w) = new ++ log w.
Proof.
  unfold step.
  destruct (tasks w !! j) as [[st | job] |] eqn:Hj; [| | by exists []].
  - destruct st as [c | l h k | l h settled | h res]; simpl.
    + unfold advance. destruct (run_callback c _) as [w' r] eqn:Hrun.
      destruct (run_callback_log _ _ _ _ Hrun) as [new Hnew]. simpl in *.
      exists (new ++ [EvRegister (nextId (hooks w))]).
      by rewrite Hnew, <- app_assoc.
    + unfold advance. destruct (run_callback k w) as [w' r] eqn:Hrun.
      by apply run_callback_log in Hrun.
    + by exists [EvUnregister h].
    + by exists [].
  - destruct (run_job job w) as [w' j'] eqn:Hrun. simpl.
    by apply run_job_log in Hrun.
Qed.

Lemma step_nextId j w : nextId (hooks w) ≤ nextId (hooks (step j w)).
Proof.
  unfold step.
  destruct (tasks w !! j) as [[st | job] |] eqn:Hj; [| | done].
  - destruct st as [c | l h k | l h settled | h res]; simpl.
    + unfold advance. destruct (run_callback c _) as [w' r] eqn:Hrun.
      simpl. rewrite (run_callback_hooks _ _ _ _ Hrun). simpl.
      unfold getOrCreateInstance. lia.
    + unfold advance. destruct (run_callback k w) as [w' r] eqn:Hrun.
      simpl. by rewrite (run_callback_hooks _ _ _ _ Hrun).
    + done.
    + done.
  - destruct (run_job job w) as [w' j'] eqn:Hrun. simpl.
    by rewrite (run_job_hooks _ _ _ _ Hrun).
Qed.

(** A capture keeps the handle it has; one that registers in this turn gets
    the next handle of the registry. *)
Lemma step_handle i j w st :
  tasks w !! i = Some (Capture st) →
  ∃ st', tasks (step j w) !! i = Some (Capture st')
    ∧ match handle_of st with
      | Some h => handle_of st' = Some h
      | None => handle_of st' = None ∨ handle_of st' = Some (nextId (hooks w))
      end.
Proof.
  intros Hi. destruct (decide (j = i)) as [-> | Hne].
  - assert (∀ l h k w0, i < length (tasks w0) →
      ∃ st', tasks (advance i l h k w0) !! i = Some (Capture st')
             ∧ handle_of st' = Some h) as Hadv.
    { intros l h k w0 Hlt. unfold advance.
      destruct (run_callback k w0) as [w' r] eqn:Hrun. simpl.
      eexists. split.
      - apply list_lookup_insert_eq.
        destruct (lookup_lt_is_Some_2 _ _ Hlt) as [t Ht].
        eapply lookup_lt_Some. by eapply run_callback_tasks.
      - by destruct r. }
    apply lookup_lt_Some in Hi as Hlt.
    unfold step. rewrite Hi.
    destruct st as [c | l h k | l h settled | h res]; simpl.
    + edestruct Hadv as (st' & Hst' & Hh); [| exists st'; split; [apply Hst' |]].
      * simpl. by rewrite length_insert.
      * by right.
    + by apply Hadv.
    + eexists. split; [by apply list_lookup_insert_eq | done].
    + by exists (Finished h res).
  - exists st. split; [by apply step_other |].
    destruct (handle_of st); [done | by left].
Qed.

Lemma run_since (n0 : nat) (log0 : list (Event Error)) i sched w st :
  (∃ new, log w = new ++ log0) →
  n0 ≤ nextId (hooks w) →
  tasks w !! i = Some (Capture st) →
  (∀ h, handle_of st = Some h → n0 ≤ h) →
  ∃ st' new,
    tasks (run sched w) !! i = Some (Capture st')
    ∧ log (run sched w) = new ++ log0
    ∧ ∀ h, handle_of st' = Some h → n0 ≤ h.
Proof.
  revert w st. induction sched as [|j sched IH]; intros w st [new Hnew] Hn Hi Hh.
  - by exists st, new.
  - simpl. destruct (step_handle i j w st Hi) as (st1 & H1 & Hh1).
    eapply (IH (step j w) st1); [| | done |].
    + destruct (step_log j w) as [new' Hnew']. exists (new' ++ new).
      by rewrite Hnew', Hnew, <- app_assoc.
    + etrans; [done | apply step_nextId].
    + intros h Hst1. destruct (handle_of st) as [h0 |] eqn:Hst.
      * rewrite Hh1 in Hst1. injection Hst1 as <-. by apply Hh.
      * destruct Hh1 as [Hnone | Hsome]; [congruence |].
        rewrite Hsome in Hst1. by injection Hst1 as <-.
Qed.

(** A capture that has not been called yet when the program is in state
    [w0] sees nothing of what was published up to then: whatever runs next,
    its array holds the translations of the mismatches published after [w0]
    while its subscription was registered. *)
Theorem capture_ignores_earlier_mismatches cbs jobs sched0 sched1 i callback :
  let w0 := run sched0 (boot cbs jobs) in
  let w1 := run (sched0 ++ sched1) (boot cbs jobs) in
  tasks w0 !! i = Some (Capture (Called callback)) →
  ∃ new, log w1 = new ++ log w0
    ∧ ∀ st h l,
        tasks w1 !! i = Some (Capture st) →
        handle_of st = Some h → array_of st = Some l →
        heap w1 !! l
        = Some (createExistenceFilterMismatchInfoFrom <$> window h new).
Proof.
  intros w0 w1 Hi.
  destruct (run_since (nextId (hooks w0)) (log w0) i sched1 w0 _
              (ex_intro _ [] eq_refl) (Nat.le_refl _) Hi)
    as (st' & new & Hst' & Hnew & Hh); [done |].
  subst w1. rewrite run_app. fold w0. exists new. split; [done |].
  intros st h l Hst Hhst Hl. rewrite Hst' in Hst. injection Hst as ->.
  destruct (reachable_inv cbs jobs (sched0 ++ sched1)) as [subs1 HI1].
  rewrite run_app in HI1. fold w0 in HI1.
  destruct (reachable_inv cbs jobs sched0) as [subs0 HI0]. fold w0 in HI0.
  assert (captured (run sched1 w0) h l) as Hcap.
  { destruct (inv_tasks _ _ _ HI1 _ _ Hst') as (cb & _ & Hinv).
    destruct st as [c | l' h' k | l' h' settled | h' [[l' r] | e]];
      simpl in *; try done; injection Hhst as ->; injection Hl as ->.
    - by destruct Hinv as (_ & _ & _ & ?).
    - by destruct Hinv as (_ & _ & _ & ?).
    - by destruct Hinv as (_ & _ & _ & _ & _ & _ & ?). }
  unfold captured in Hcap. rewrite Hcap, Hnew. unfold window.
  rewrite observe_app_fresh; [done |].
  apply observe_fresh. intros h' Hin%(inv_log _ _ _ HI0).
  specialize (Hh _ Hhst). lia.
Qed.

End CaptureStart.

(** ** More on the translation *)

Section TranslationMore.

Context {Error : Type}.
Implicit Types (internalInfo : ExistenceFilterMismatchInfoInternal Error)
  (documentRef : DocumentReference).

(** Within one database, two document references get the same key exactly
    when they have the same path: the internal predicate is never asked
    about one document in place of another. *)
Theorem documentKey_inj internalInfo (r1 r2 : DocumentReference) :
  documentKey internalInfo r1 = documentKey internalInfo r2 ↔ r1 = r2.
Proof.
  split; [| by intros ->].
  unfold documentKey. intros Hkey.
  apply (inj (String.app _)) in Hkey. apply (inj (String.app _)) in Hkey.
  destruct r1, r2. simpl in Hkey. by subst.
Qed.

(** The project and database identifiers reach the translated record
    through the key given to the internal predicate and nowhere else: two
    internal records that agree on the counts and on the bloom filter yield
    records that are equal up to [mightContain], equal altogether when there
    is no bloom filter, and whose [mightContain] agree wherever the keys
    do. *)
Theorem translation_uses_ids_in_key_only (i1 i2 : ExistenceFilterMismatchInfoInternal Error) :
  localCacheCount i1 = localCacheCount i2 →
  existenceFilterCount i1 = existenceFilterCount i2 →
  bloomFilter i1 = bloomFilter i2 →
  let info1 := createExistenceFilterMismatchInfoFrom i1 in
  let info2 := createExistenceFilterMismatchInfoFrom i2 in
  delete "bloomFilter" info1 = delete "bloomFilter" info2
  ∧ delete "mightContain" <$> get_bloomFilter info1
    = delete "mightContain" <$> get_bloomFilter info2
  ∧ (bloomFilter i1 = None → info1 = info2)
  ∧ ∀ r1 r2, documentKey i1 r1 = documentKey i2 r2 →
             call_mightContain info1 r1 = call_mightContain info2 r2.
Proof.
  intros Hl He Hbf info1 info2. subst info1 info2.
  unfold call_mightContain, get_bloomFilter, createExistenceFilterMismatchInfoFrom.
  rewrite <- Hbf, Hl, He.
  destruct (bloomFilter i1) as [bf |]; split_and!.
  - by rewrite !delete_insert_eq.
  - rewrite !lookup_insert_eq. simpl. by rewrite !delete_insert_eq.
  - done.
  - intros r1 r2 Hkey. rewrite !lookup_insert_eq. by rewrite Hkey.
  - done.
  - by rewrite !lookup_insert_ne, lookup_empty.
  - done.
  - intros r1 r2 _. by rewrite !lookup_insert_ne, lookup_empty.
Qed.

End TranslationMore.

(** ** A capture on its own *)

Section LoneCapture.

Import TestingHooks.
Context {Error T : Type}.
Implicit Types (w : World Error T) (h : Handle) (l results : Loc)
  (st : CaptureState Error T) (c k callback : Async Error T)
  (sched : list nat).

Lemma run_callback_lone k w w' r h :
  detached k = [] → subscribed h (log w) = true →
  run_callback k w = (w', r) →
  tasks w' = tasks w ∧ subscribed h (log w') = true
  ∧ match r with
    | inl k' => detached k' = []
                ∧ window h (log w') ++ notifications k'
                  = window h (log w) ++ notifications k
    | inr _ => window h (log w') = window h (log w) ++ notifications k
    end.
Proof.
  revert w. induction k as [r0 | e | info k IH | k IH | bg k IH];
    intros w Hd Hsub Hrun; simpl in *.
  - injection Hrun as <- <-. by rewrite app_nil_r.
  - injection Hrun as <- <-. by rewrite app_nil_r.
  - destruct (IH (notify info w) Hd) as (Ht & Hs & Hr); [| done |].
    { simpl. by rewrite subscribed_notify. }
    simpl in *. split_and!; [done | done |].
    rewrite window_notify, Hsub, <- app_assoc in Hr. done.
  - injection Hrun as <- <-. by rewrite Hd.
  - done.
Qed.

Lemma lone_step callback w i :
  detached callback = [] →
  lone_inv callback w → lone_inv callback (step i w).
Proof.
  intros Hdet (st & Ht & Hst). unfold step. rewrite Ht.
  destruct i as [|i]; [| by exists st]. simpl.
  assert (∀ l h k w0, tasks w0 = [Capture (Awaiting l h k)] →
    detached k = [] → subscribed h (log w0) = true →
    window h (log w0) ++ notifications k = notifications callback →
    lone_inv callback (advance 0 l h k w0)) as Hadv.
  { intros l h k w0 Ht0 Hd Hsub Hwin. unfold advance.
    destruct (run_callback k w0) as [w' r] eqn:Hrun.
    destruct (run_callback_lone _ _ _ _ h Hd Hsub Hrun) as (Ht' & Hs' & Hr).
    eexists. split; [simpl; by rewrite Ht', Ht0 |].
    destruct r as [k' | settled]; simpl.
    - destruct Hr as [Hd' Hw']. split_and!; [done | done | congruence].
    - split; [done | congruence]. }
  destruct st as [c | l h k | l h settled | h res]; simpl in Hst |- *.
  - destruct Hst as [-> Hlog]. apply Hadv; simpl.
    + by rewrite Ht.
    + done.
    + rewrite subscribed_register, bool_decide_eq_true_2 by done.
      apply orb_true_r.
    + by rewrite window_register, Hlog.
  - destruct Hst as (? & ? & ?). by apply Hadv.
  - destruct Hst as [Hsub Hwin]. eexists. split; [simpl; by rewrite Ht |].
    simpl. by rewrite window_unregister.
  - exists (Finished h res). by split.
Qed.

Lemma lone_run callback w sched :
  detached callback = [] →
  lone_inv callback w → lone_inv callback (run sched w).
Proof.
  intros Hdet. revert w. induction sched as [|i sched IH]; intros w Hw; [done |].
  apply IH. by apply lone_step.
Qed.

(** A capture that runs on its own, around work that detaches nothing and
    resolves, returns exactly what the work reported: a record for every
    mismatch, in the order of the reports, and nothing else, however the
    turns fall. *)
Theorem lone_capture_returns_the_reports callback (r : T) sched :
  detached callback = [] →
  outcome callback = Normal r →
  awaits callback + 2 ≤ turns 0 sched →
  returned_records (run sched (boot [callback] [])) 0
  = Some (createExistenceFilterMismatchInfoFrom <$> notifications callback).
Proof.
  intros Hdet Hout Hturns.
  destruct (capture_finishes [callback] [] sched 0 callback eq_refl Hturns)
    as (h & result & Hi).
  destruct (finished_inv [callback] [] sched 0 callback h result eq_refl Hi)
    as (subs & _ & _ & _ & _ & Hres).
  destruct result as [[l r'] | e]; [| congruence].
  destruct Hres as [_ Hcap].
  destruct (lone_run callback (boot [callback] []) sched Hdet)
    as (st & Ht & Hst).
  { exists (Called callback). by split. }
  rewrite Ht in Hi. simpl in Hi. injection Hi as ->.
  unfold returned_records. rewrite Ht. simpl.
  unfold captured in Hcap. by rewrite Hcap, Hst.
Qed.

End LoneCapture.

(** ** These properties at the sample data *)

Lemma subscription_registered_while_suspended_witness :
  let w := run [0] (boot [Sample.reporting] []) in
  NoDup (TestingHooks.callbacks (hooks w)).*1
  ∧ 0 ∈ (TestingHooks.callbacks (hooks w)).*1.
Proof.
  apply (subscription_registered_while_suspended [Sample.reporting] [] [0] 0
           (Awaiting 0 0 (Notify Sample.mismatch (Return 1%Z)))).
  reflexivity.
Defined.

Lemma registry_empty_after_all_captures_witness :
  TestingHooks.callbacks
    (hooks (run [0; 1; 0; 1; 0; 1] (boot [Sample.reporting; Sample.failing] [])))
  = [].
Proof.
  apply (registry_empty_after_all_captures [Sample.reporting; Sample.failing] []
           [0; 1; 0; 1; 0; 1]).
  intros i c Hi. destruct i as [|[|i]]; simpl in Hi.
  - injection Hi as <-. vm_compute. lia.
  - injection Hi as <-. vm_compute. lia.
  - discriminate Hi.
Defined.

Lemma captures_never_share_an_array_witness :
  let w := run [0; 0; 0; 1] (boot [Sample.silent; Sample.silent] []) in
  0 ≠ 1 ∧ is_Some (heap w !! 0) ∧ is_Some (heap w !! 1).
Proof.
  apply (captures_never_share_an_array [Sample.silent; Sample.silent] []
           [0; 0; 0; 1] 0 1
           (Finished 0 (Normal (0, 2%Z))) (Awaiting 1 1 (Return 2%Z)) 0 1).
  - lia.
  - reflexivity.
  - reflexivity.
  - reflexivity.
  - reflexivity.
Defined.

Lemma returned_array_is_final_witness :
  returned_records
    (run ([0; 0] ++ [1; 1; 1])
       (boot [Sample.reporting_at_once; Sample.reporting] [])) 0
  = returned_records
      (run [0; 0] (boot [Sample.reporting_at_once; Sample.reporting] [])) 0
  ∧ is_Some (returned_records
      (run [0; 0] (boot [Sample.reporting_at_once; Sample.reporting] [])) 0).
Proof.
  apply (returned_array_is_final [Sample.reporting_at_once; Sample.reporting] []
           [0; 0] [1; 1; 1] 0 0 0 3%Z).
  reflexivity.
Defined.

Lemma capture_ignores_earlier_mismatches_witness :
  let w0 := run [0; 0] (boot [Sample.reporting_at_once; Sample.silent] []) in
  let w1 := run ([0; 0] ++ [1; 1; 1])
              (boot [Sample.reporting_at_once; Sample.silent] []) in
  ∃ new, log w1 = new ++ log w0
    ∧ ∀ st h l,
        tasks w1 !! 1 = Some (Capture st) →
        handle_of st = Some h → array_of st = Some l →
        heap w1 !! l
        = Some (createExistenceFilterMismatchInfoFrom <$> window h new).
Proof.
  apply (capture_ignores_earlier_mismatches
           [Sample.reporting_at_once; Sample.silent] [] [0; 0] [1; 1; 1] 1
           Sample.silent).
  reflexivity.
Defined.

Lemma translation_uses_ids_in_key_only_witness :
  let info1 := createExistenceFilterMismatchInfoFrom Sample.mismatch in
  let info2 := createExistenceFilterMismatchInfoFrom Sample.mismatch_elsewhere in
  delete "bloomFilter" info1 = delete "bloomFilter" info2
  ∧ delete "mightContain" <$> get_bloomFilter info1
    = delete "mightContain" <$> get_bloomFilter info2
  ∧ (bloomFilter Sample.mismatch = None → info1 = info2)
  ∧ ∀ r1 r2,
      documentKey Sample.mismatch r1 = documentKey Sample.mismatch_elsewhere r2 →
      call_mightContain info1 r1 = call_mightContain info2 r2.
Proof.
  apply (translation_uses_ids_in_key_only Sample.mismatch
           Sample.mismatch_elsewhere).
  - reflexivity.
  - reflexivity.
  - reflexivity.
Defined.

Lemma lone_capture_returns_the_reports_witness :
  returned_records (run [0; 0; 0] (boot [Sample.reporting] [])) 0
  = Some (createExistenceFilterMismatchInfoFrom <$> notifications Sample.reporting).
Proof.
  apply (lone_capture_returns_the_reports Sample.reporting 1%Z [0; 0; 0]).
  - reflexivity.
  - reflexivity.
  - vm_compute. lia.
Defined.

(** ** What a capture returns, against what was published *)

Section CaptureWindow.

Import TestingHooks.
Context {Error T : Type}.
Implicit Types (w : World Error T) (h : Handle) (l results : Loc)
  (info : ExistenceFilterMismatchInfoInternal Error)
  (events : list (Event Error))
  (subs : list (Handle * Loc))
  (st : CaptureState Error T) (c k callback : Async Error T)
  (cbs : list (Async Error T)) (jobs : list (Job Error)) (sched : list nat).

(** *** Logs *)

Lemma published_app (new old : list (Event Error)) :
  published (new ++ old) = published old ++ published new.
Proof.
  induction new as [|ev new IH]; simpl; [by rewrite app_nil_r |].
  destruct ev; rewrite IH; [done | done |]. by rewrite app_assoc.
Qed.



(** While a subscription is registered and not released, it sees all that
    is published. *)
Lemma observe_app_on h (new old : list (Event Error)) :
  subscribed h old = true → EvUnregister h ∉ new →
  observe h (new ++ old) = (true, window h old ++ published new).
Proof.
  unfold subscribed, window. intros Hon.
  induction new as [|ev new IH]; intros Hnew; simpl.
  { destruct (observe h old) as [on seen]. simpl in *. subst on.
    by rewrite app_nil_r. }
  rewrite IH by (intros Hin; apply Hnew; by right).
  destruct ev as [h' | h' | info]; simpl.
  - done.
  - rewrite bool_decide_eq_true_2; [done |].
    intros ->. apply Hnew. by left.
  - by rewrite app_assoc.
Qed.

Lemma run_callback_events c w w' r :
  run_callback c w = (w', r) →
  ∃ new, log w' = new ++ log w ∧ ∀ h, EvUnregister h ∉ new.
Proof.
  revert w. induction c as [r0 | e | info k IH | k IH | bg k IH];
    intros w Hrun; simpl in Hrun.
  - injection Hrun as <- _. exists []. split; [done |]. by intros h ?%elem_of_nil.
  - injection Hrun as <- _. exists []. split; [done |]. by intros h ?%elem_of_nil.
  - destruct (IH _ Hrun) as (new & Hnew & Hno). exists (new ++ [EvNotify info]).
    split; [by rewrite Hnew, <- app_assoc |].
    intros h [Hin | Hin%list_elem_of_singleton]%elem_of_app; [by eapply Hno | done].
  - injection Hrun as <- _. exists []. split; [done |]. by intros h ?%elem_of_nil.
  - destruct (IH _ Hrun) as (new & Hnew & Hno). by exists new.
Qed.

Lemma run_job_events (j j' : Job Error) w w' :
  run_job (T:=T) j w = (w', j') →
  ∃ new, log w' = new ++ log w ∧ ∀ h, EvUnregister h ∉ new.
Proof.
  revert w. induction j as [| info k IH | k IH]; intros w Hrun; simpl in Hrun.
  - injection Hrun as <- _. exists []. split; [done |]. by intros h ?%elem_of_nil.
  - destruct (IH _ Hrun) as (new & Hnew & Hno). exists (new ++ [EvNotify info]).
    split; [by rewrite Hnew, <- app_assoc |].
    intros h [Hin | Hin%list_elem_of_singleton]%elem_of_app; [by eapply Hno | done].
  - injection Hrun as <- _. exists []. split; [done |]. by intros h ?%elem_of_nil.
Qed.

(** A turn logs a release only when a capture resumes, and then of the
    handle of that capture. *)
Lemma step_events j w :
  ∃ new, log (step j w) = new ++ log w
    ∧ ∀ h, EvUnregister h ∈ new →
           ∃ l settled, tasks w !! j = Some (Capture (Resuming l h settled)).
Proof.
  unfold step.
  destruct (tasks w !! j) as [[st | job] |] eqn:Hj.
  - destruct st as [c | l h k | l h settled | h res]; simpl.
    + unfold advance. destruct (run_callback c _) as [w' r] eqn:Hrun.
      destruct (run_callback_events _ _ _ _ Hrun) as (new & Hnew & Hno).
      simpl in *. exists (new ++ [EvRegister (nextId (hooks w))]).
      split; [by rewrite Hnew, <- app_assoc |].
      intros h [Hin | Hin%list_elem_of_singleton]%elem_of_app; [| done].
      by destruct (Hno h).
    + unfold advance. destruct (run_callback k w) as [w' r] eqn:Hrun.
      destruct (run_callback_events _ _ _ _ Hrun) as (new & Hnew & Hno).
      exists new. split; [done |]. intros h' Hin. by destruct (Hno h').
    + exists [EvUnregister h]. split; [done |].
      intros h' Hin%list_elem_of_singleton. injection Hin as ->. eauto.
    + exists []. split; [done |]. by intros h' ?%elem_of_nil.
  - destruct (run_job job w) as [w' j'] eqn:Hrun. simpl.
    destruct (run_job_events _ _ _ _ Hrun) as (new & Hnew & Hno).
    exists new. split; [done |]. intros h' Hin. by destruct (Hno h').
  - exists []. split; [done |]. by intros h' ?%elem_of_nil.
Qed.

(** *** The work's own reports reach the array *)


Lemma advance_lookup i l h k w :
  i < length (tasks w) →
  ∃ w' r, run_callback k w = (w', r)
    ∧ tasks (advance i l h k w) !! i
      = Some (Capture match r with
                      | inl k' => Awaiting l h k'
                      | inr settled => Resuming l h settled
                      end)
    ∧ log (advance i l h k w) = log w'.
Proof.
  intros Hlt. unfold advance.
  destruct (run_callback k w) as [w' r] eqn:Hrun. exists w', r.
  split_and!; [done | | done]. simpl.
  apply list_lookup_insert_eq.
  destruct (lookup_lt_is_Some_2 _ _ Hlt) as [t Ht].
  eapply lookup_lt_Some. by eapply run_callback_tasks.
Qed.




(** *** The window, from the call to the resumption *)

Lemma since_call cbs subs w0 i c :
  Inv cbs subs w0 → tasks w0 !! i = Some (Capture (Called c)) →
  since (log w0) i (step i w0).
Proof.
  intros HI Hi. apply lookup_lt_Some in Hi as Hlt.
  unfold since, step. rewrite Hi. simpl. unfold getOrCreateInstance.
  match goal with
  | |- context [advance i ?l ?h ?k ?w1] =>
      destruct (advance_lookup i l h k w1) as (w' & r & Hrun & Hlook & Hlog)
  end.
  { simpl. by rewrite length_insert. }
  destruct (run_callback_events _ _ _ _ Hrun) as (new & Hnew & Hno).
  simpl in Hnew.
  assert (observe (nextId (hooks w0)) (log w') = (true, published new)) as Hobs.
  { rewrite Hnew, observe_app_on; [| | apply Hno].
    - unfold window. simpl. rewrite observe_fresh; [done |].
      intros h' Hin%(inv_log _ _ _ HI). lia.
    - unfold subscribed. simpl. rewrite observe_fresh.
      + simpl. by apply bool_decide_eq_true_2.
      + intros h' Hin%(inv_log _ _ _ HI). lia. }
  eexists. exists (new ++ [EvRegister (nextId (hooks w0))]).
  split; [apply Hlook |]. rewrite Hlog. split.
  - by rewrite Hnew, <- app_assoc.
  - rewrite published_app. simpl. unfold window.
    destruct r; by rewrite Hobs.
Qed.

Lemma since_step cbs subs log0 i j w :
  Inv cbs subs w → since log0 i w → since log0 i (step j w).
Proof.
  intros HI (st & new & Hi & Hlog & Hst).
  destruct (step_events j w) as (new' & Hnew' & Hrel).
  destruct (step_handle i j w st Hi) as (st' & Hi' & Hh).
  exists st', (new' ++ new). split; [done |].
  split; [by rewrite Hnew', Hlog, <- app_assoc |].
  assert (∀ l h, subscription st = Some (h, l) →
                 window h (log w) = published new →
                 handle_of st' = Some h →
                 match st' with
                 | Called _ => False
                 | Awaiting _ h' _ | Resuming _ h' _ =>
                     window h' (log (step j w)) = published (new' ++ new)
                 | Finished _ _ => True
                 end) as Hkeep.
  { intros l h Hs Hw Hh'.
    destruct (inv_tasks _ _ _ HI _ _ Hi) as (cb & _ & Hinv).
    assert (subscribed h (log w) = true) as Hsub.
    { destruct st; simpl in *; try done; injection Hs as -> ->;
        by destruct Hinv as (_ & _ & ? & _). }
    assert (∀ l', subscription st' = Some (h, l') →
                  window h (log (step j w)) = published (new' ++ new)) as Hwin.
    { intros l' Hs'. unfold window. rewrite Hnew', observe_app_on; [| done |].
      - simpl. by rewrite published_app, Hw.
      - intros (l2 & settled & Hj)%Hrel.
        assert (j = i) as -> by (by eapply (inv_owner _ _ _ HI)).
        destruct (step_self _ _ _ Hi) as (st2 & Hi2 & Hrem).
        rewrite Hi in Hj. injection Hj as ->. simpl in Hrem.
        rewrite Hi' in Hi2. injection Hi2 as <-.
        destruct st'; simpl in *; try done; lia. }
    destruct st' as [c' | l' h' k' | l' h' s' | h' res']; simpl in *.
    - done.
    - injection Hh' as ->. by eapply Hwin.
    - injection Hh' as ->. by eapply Hwin.
    - done. }
  destruct st as [c | l h k | l h settled | h res]; simpl in Hst, Hh.
  - done.
  - by eapply Hkeep.
  - by eapply Hkeep.
  - destruct (decide (j = i)) as [-> | Hne].
    + destruct (step_self _ _ _ Hi) as (st2 & Hi2 & Hrem).
      rewrite Hi' in Hi2. injection Hi2 as <-.
      destruct st'; simpl in *; try done; lia.
    + rewrite (step_other _ _ _ _ Hne Hi) in Hi'. by injection Hi' as <-.
Qed.

Lemma since_run cbs subs log0 i sched w :
  Inv cbs subs w → since log0 i w → since log0 i (run sched w).
Proof.
  revert subs w. induction sched as [|j sched IH]; intros subs w HI Hs; [done |].
  destruct (inv_step _ _ _ j HI) as [subs' HI']. simpl.
  eapply IH; [done |]. by eapply since_step.
Qed.

(** C8, as the code has it: the capture window runs from the call to the
    resumption.  Take the program at [w0], where the capture is about to be
    called, and at [w1], any time after its call.  While the capture is
    suspended at [w1], the work pending or settled, its array holds a
    record for every mismatch published since [w0], in order: by the work
    from its first stretch on, by the actions it detached, by anything
    else.  When the work has resolved at [w1] and the capture resumes in the
    next turn, the array it returns holds these records and no other,
    whatever is published afterwards. *)
Theorem capture_window_is_call_to_resumption cbs (jobs : list (Job Error))
    sched0 sched1 sched2 i callback :
  let w0 := run sched0 (boot cbs jobs) in
  let w1 := run (sched0 ++ i :: sched1) (boot cbs jobs) in
  let w2 := run ((sched0 ++ i :: sched1) ++ i :: sched2) (boot cbs jobs) in
  tasks w0 !! i = Some (Capture (Called callback)) →
  ∃ new, log w1 = new ++ log w0
    ∧ ∀ st h l,
        tasks w1 !! i = Some (Capture st) → subscription st = Some (h, l) →
        heap w1 !! l
        = Some (createExistenceFilterMismatchInfoFrom <$> published new)
        ∧ ∀ r, st = Resuming l h (Normal r) →
               tasks w2 !! i = Some (Capture (Finished h (Normal (l, r))))
               ∧ returned_records w2 i
                 = Some (createExistenceFilterMismatchInfoFrom <$> published new).
Proof.
  intros w0 w1 w2 Hi.
  destruct (reachable_inv cbs jobs sched0) as [subs0 HI0]. fold w0 in HI0.
  destruct (inv_step _ _ _ i HI0) as [subsc HIc].
  pose proof (since_run _ _ _ _ sched1 _ HIc (since_call _ _ _ _ _ HI0 Hi))
    as (st1 & new & Hst1 & Hnew & Hwin).
  assert (w1 = run sched1 (step i w0)) as Hw1.
  { subst w1 w0. by rewrite run_app. }
  assert (w2 = run sched2 (step i w1)) as Hw2.
  { subst w2 w1. by rewrite run_app. }
  rewrite <- Hw1 in Hst1, Hnew, Hwin.
  destruct (reachable_inv cbs jobs (sched0 ++ i :: sched1)) as [subs1 HI1].
  fold w1 in HI1.
  exists new. split; [done |]. intros st h l Hst Hs.
  rewrite Hst1 in Hst. injection Hst as ->.
  destruct (subscription_inv _ _ _ _ _ _ _ HI1 Hst1 Hs) as (_ & _ & Hcap).
  assert (window h (log w1) = published new) as Hw.
  { destruct st; simpl in *; try done; by injection Hs as -> ->. }
  unfold captured in Hcap. rewrite Hw in Hcap.
  split; [done |]. intros r ->.
  destruct (inv_step _ _ _ i HI1) as [subs2 HI2].
  assert (tasks (step i w1) !! i = Some (Capture (Finished h (Normal (l, r)))))
    as Hfin.
  { unfold step. rewrite Hst1. simpl. apply list_lookup_insert_eq.
    by eapply lookup_lt_Some. }
  assert (heap (step i w1) !! l = heap w1 !! l) as Hsame.
  { unfold step. by rewrite Hst1. }
  destruct (returned_records_stable _ _ _ _ _ _ _ sched2 HI2 Hfin)
    as [Hfin2 Hheap].
  rewrite Hw2. split; [done |].
  unfold returned_records. by rewrite Hfin2, Hheap, Hsame.
Qed.

End CaptureWindow.


Lemma capture_window_is_call_to_resumption_witness :
  let w0 := run [] (boot [Sample.detaching] []) in
  let w1 := run ([] ++ 0 :: [1]) (boot [Sample.detaching] []) in
  let w2 := run (([] ++ 0 :: [1]) ++ 0 :: []) (boot [Sample.detaching] []) in
  ∃ new, log w1 = new ++ log w0
    ∧ ∀ st h l,
        tasks w1 !! 0 = Some (Capture st) → subscription st = Some (h, l) →
        heap w1 !! l
        = Some (createExistenceFilterMismatchInfoFrom <$> published new)
        ∧ ∀ r, st = Resuming l h (Normal r) →
               tasks w2 !! 0 = Some (Capture (Finished h (Normal (l, r))))
               ∧ returned_records w2 0
                 = Some (createExistenceFilterMismatchInfoFrom <$> published new).
Proof.
  apply (capture_window_is_call_to_resumption [Sample.detaching] [] [] [1] []
           0 Sample.detaching).
  reflexivity.
Defined.
